(** * strapi_import_CLI: the CSV to Strapi synchroniser

    A shallow embedding of [src/strapiClient.ts] (the remote resource client)
    and of the sync script ([formatError], [processCsv], [main]), with the
    properties of the report that the specification states.

    Conventions of the embedding.
    - The HTTP transport (the axios instance [client]) is not code of the
      repository: it is a parameter, three operations threading a state [W]
      of the remote side and completing normally or by throwing.
    - Every request handed to the transport is appended to [calls], so that
      "no remote call is made" is a statement about that list.
    - A response that lacks the declared shape makes the property access
      that follows the call throw inside the same [try] block
      ([res.data.data[0]], [baseDoc.documentId]): it is a throwing operation.
    - [JSON.stringify] and [String] are JavaScript built-ins, parameters as
      well.  Thrown values are finite trees ([JsVal]); [JSON.stringify] throws
      on cyclic structures and BigInts only, neither of which is a [JsVal], so
      it is total here and the handlers [catch { return String(..) }] of
      [formatError] are not reachable.  The conversion of an object to a
      string, which a template literal performs, throws a TypeError when
      the object has no callable [toString] and no [valueOf] that answers
      with a primitive: [String_] is partial.
    - The file system is an input: [CsvFile] is what it answers when the CSV
      is read, [Disk] what it answers when the report is written.  Node's
      [process], [path], [fs] and [csv-parse] throw instances of [Error].
    - The logger is taken not to throw.  What the program logs is defined
      beside the program, in [Journal]. *)

From Stdlib Require Import ZArith.
From stdpp Require Import base option list strings pretty.

(** ** JavaScript values and completions *)

(** What a call can throw, and what an HTTP error response can carry. *)
#[warnings="-register-all"]
Inductive JsVal : Type :=
  | JUndefined
  | JNull
  | JBool (b : bool)
  | JNum (n : Z)
  | JStr (s : string)
  | JArr (items : list JsVal)
  | JObj (props : list (string * JsVal))
  (* an instance of Error: its message and its other own properties *)
  | JError (message : string) (props : list (string * JsVal)).

(** A statement either completes normally or throws. *)
Inductive Completion (A : Type) : Type :=
  | Normal (a : A)
  | Throw (err : JsVal).
Arguments Normal {A} a.
Arguments Throw {A} err.

(** The TypeError of a conversion to a primitive value that fails; its
    name, which a TypeError inherits, is kept with it. *)
Definition typeError : JsVal :=
  JError "Cannot convert object to primitive value" [("name", JStr "TypeError")].

(** Own property [k] of a property list, [undefined] when absent. *)
Fixpoint lookupProp (props : list (string * JsVal)) (k : string) : JsVal :=
  match props with
  | [] => JUndefined
  | (k', v) :: rest => if decide (k' = k) then v else lookupProp rest k
  end.

(** [v?.k]: the property [k] of [v].  An Error has its own [message], and
    inherits [name] from [Error.prototype] unless it was set. *)
Definition getProp (v : JsVal) (k : string) : JsVal :=
  match v with
  | JObj props => lookupProp props k
  | JError message props =>
      if decide (k = "message") then JStr message
      else match lookupProp props k with
           | JUndefined => if decide (k = "name") then JStr "Error" else JUndefined
           | x => x
           end
  | _ => JUndefined
  end.

(** JavaScript truthiness. *)
Definition truthy (v : JsVal) : bool :=
  match v with
  | JUndefined | JNull => false
  | JBool b => b
  | JNum n => negb (n =? 0)%Z
  | JStr s => negb (bool_decide (s = ""))
  | JArr _ | JObj _ | JError _ _ => true
  end.

(** ** Data model *)

Module ProFeature.
Record t : Type := mk {
  id : Z;
  documentId : string;
  feature_id : string;
  name : string;
  createdAt : string;
  updatedAt : string;
  publishedAt : option string;
  locale : string
}.
End ProFeature.

Record PaginationMeta : Type := {
  page : Z; pageSize : Z; pageCount : Z; total : Z
}.

Record ListResponse (T : Type) : Type := {
  data : list T;
  meta : PaginationMeta
}.
Arguments data {T} _.
Arguments meta {T} _.

(** The three requests the client sends to the collection. *)
Inductive Request : Type :=
  | GET_pro_features (feature_id : string)
  | POST_pro_features (feature_id name locale : string)
  | PUT_pro_features (documentId locale name : string).

(** A CSV record as [csv-parse] returns it with [columns: true]: the own
    properties of the object, in the order of [Object.keys].  An object has
    each key once, so [NoDup (Object_keys row)] holds of every record. *)
Definition CsvRow : Type := list (string * string).

Definition Object_keys (row : CsvRow) : list string := row.*1.

(** [row[k]]: [None] is [undefined]. *)
Fixpoint cell (row : CsvRow) (k : string) : option string :=
  match row with
  | [] => None
  | (k', v) :: rest => if decide (k' = k) then Some v else cell rest k
  end.

(** The truthy value of a cell: [!x] holds of [undefined] and of [''], and
    yields [None] here. *)
Definition nonEmpty (x : option string) : option string :=
  match x with
  | Some s => if decide (s = "") then None else Some s
  | None => None
  end.

Inductive Action : Type := create_base | update_base | upsert_locale.

Global Instance Action_eq_dec : EqDecision Action.
Proof. solve_decision. Defined.

Module ReportEntrySuccess.
Record t : Type := mk {
  featureId : string;
  locale : string;
  action : Action;
  documentId : string;
  name : string
}.
End ReportEntrySuccess.

Module ReportEntryFailure.
Record t : Type := mk {
  featureId : string;
  locale : string;
  action : Action;
  (* [None]: [formatError] returned [undefined] *)
  error : option string;
  row : CsvRow
}.
End ReportEntryFailure.

Record SyncReport : Type := {
  defaultLocale : string;
  otherLocales : list string;
  processedRows : nat;
  successes : list ReportEntrySuccess.t;
  failures : list ReportEntryFailure.t
}.

Definition dquote : string := String (Ascii.ascii_of_nat 34) EmptyString.

(** What [path.resolve], [fs.existsSync], [fs.readFileSync] and [parse] make
    of a path.  A file that parses has a header line, [columns], which
    [parse] consumes, and data rows, which it returns as [records]; the code
    sees the records only. *)
Inductive CsvFile : Type :=
  | FileMissing
  | Unreadable (message : string)     (* one of them throws an Error *)
  | Parsed (columns : list string) (records : list CsvRow).

(** What the system answers when the report is written: whether the
    directory [reports] is there, and the message of the Error that
    [process.cwd], [fs.mkdirSync] and [fs.writeFileSync] throw, if they
    throw. *)
Record Disk : Type := {
  process_cwd : option string;
  existsSync_reportsDir : bool;
  mkdirSync : option string;
  writeFileSync : SyncReport -> option string
}.

(** How [processCsv] ends. *)
Inductive Outcome : Type :=
  | Exited (code : Z)                 (* process.exit(code) *)
  | Rejected (err : JsVal)            (* the promise rejects *)
  | ReturnedEarly                     (* the [return] of the empty CSV *)
  | ReportWritten (r : SyncReport).   (* fs.writeFileSync(reportFile, ..) *)

(** ** The program *)

Module Sync.

Section Program.

(** The remote side: its state, and the transport's three verbs. *)
Variable W : Type.
Variable client_get :
  string -> W -> Completion (ListResponse ProFeature.t) * W.
Variable client_post :
  string -> string -> string -> W -> Completion ProFeature.t * W.
Variable client_put :
  string -> string -> string -> W -> Completion ProFeature.t * W.

(** Built-ins: [JSON.stringify] ([None] is [undefined]), and [String], the
    conversion to a string ([None]: it throws its TypeError). *)
Variable JSON_stringify : JsVal -> option string.
Variable String_ : JsVal -> option string.

(** The remote state together with the requests sent so far. *)
Record Remote : Type := { world : W; calls : list Request }.

Record RunState : Type := { remote : Remote; report : SyncReport }.

(** *** strapiClient.ts *)

Definition findDocumentByFeatureId (baseFeatureId : string) (r : Remote)
  : Completion (option ProFeature.t) * Remote :=
  let '(res, w) := client_get baseFeatureId (world r) in
  let r' := {| world := w;
               calls := calls r ++ [GET_pro_features baseFeatureId] |} in
  match res with
  | Normal res => (Normal (head (data res)), r')
  | Throw err => (Throw err, r')
  end.

Definition createBaseDocument (feature_id name locale : string) (r : Remote)
  : Completion ProFeature.t * Remote :=
  let '(res, w) := client_post feature_id name locale (world r) in
  (res, {| world := w;
           calls := calls r ++ [POST_pro_features feature_id name locale] |}).

Definition upsertLocaleVersion (documentId locale name : string) (r : Remote)
  : Completion ProFeature.t * Remote :=
  let '(res, w) := client_put documentId locale name (world r) in
  (res, {| world := w;
           calls := calls r ++ [PUT_pro_features documentId locale name] |}).

(** *** formatError *)

(** The string a template literal [`${v}`] inserts for [v]. *)
Definition toStr (v : JsVal) : Completion string :=
  match v with
  | JStr s => Normal s
  | JUndefined => Normal "undefined"
  | JNull => Normal "null"
  | JBool true => Normal "true"
  | JBool false => Normal "false"
  | _ => match String_ v with
         | Some s => Normal s
         | None => Throw typeError
         end
  end.

(** [a || b] *)
Definition or_else (a b : JsVal) : JsVal := if truthy a then a else b.

(** [formatError(err)]: the string, or [undefined], it returns, unless the
    template literal of the structured body throws; its two substitutions
    are converted in turn. *)
Definition formatError (err : JsVal) : Completion (option string) :=
  if truthy (getProp err "response") then
    let data := getProp (getProp err "response") "data" in
    if truthy (getProp data "error") then
      let e := getProp data "error" in
      match toStr (or_else (getProp e "name") (JStr "Error")) with
      | Throw t => Throw t
      | Normal name =>
          match (if truthy (getProp e "message") then toStr (getProp e "message")
                 else Normal (default "undefined" (JSON_stringify e))) with
          | Throw t => Throw t
          | Normal message => Normal (Some (name +:+ ": " +:+ message))
          end
      end
    else Normal (JSON_stringify data)
  else
    match err with
    | JError message _ => Normal (Some message)
    | _ => Normal (JSON_stringify err)
    end.

(** *** processCsv: the loop over the records *)

Definition pushSuccess (e : ReportEntrySuccess.t) (st : RunState) : RunState :=
  {| remote := remote st;
     report := {| defaultLocale := defaultLocale (report st);
                  otherLocales := otherLocales (report st);
                  processedRows := processedRows (report st);
                  successes := successes (report st) ++ [e];
                  failures := failures (report st) |} |}.

Definition pushFailure (e : ReportEntryFailure.t) (st : RunState) : RunState :=
  {| remote := remote st;
     report := {| defaultLocale := defaultLocale (report st);
                  otherLocales := otherLocales (report st);
                  processedRows := processedRows (report st);
                  successes := successes (report st);
                  failures := failures (report st) ++ [e] |} |}.

Definition countRow (st : RunState) : RunState :=
  {| remote := remote st;
     report := {| defaultLocale := defaultLocale (report st);
                  otherLocales := otherLocales (report st);
                  processedRows := processedRows (report st) + 1;
                  successes := successes (report st);
                  failures := failures (report st) |} |}.

Definition withRemote (r : Remote) (st : RunState) : RunState :=
  {| remote := r; report := report st |}.

(** How a statement ends: normally, or by an exception that escapes it,
    in the state reached by then. *)
Definition Flow : Type := Completion unit * RunState.

(** [for (const x of xs) { body }]: an exception that escapes the body ends
    the loop. *)
Fixpoint forOf {A : Type} (body : RunState -> A -> Flow) (st : RunState)
    (xs : list A) : Flow :=
  match xs with
  | [] => (Normal (), st)
  | x :: rest =>
      match body st x with
      | (Normal _, st') => forOf body st' rest
      | (Throw err, st') => (Throw err, st')
      end
  end.

(** One iteration of [for (const locale of otherLocales)].  [formatError]
    is called in the handler: what it throws escapes. *)
Definition upsertLocaleStep (row : CsvRow) (baseFeatureId documentId : string)
    (st : RunState) (locale : string) : Flow :=
  match nonEmpty (cell row locale) with
  | None => (Normal (), st)
  | Some localizedName =>
      let '(res, r) :=
        upsertLocaleVersion documentId locale localizedName (remote st) in
      match res with
      | Normal localized =>
          (Normal (),
           pushSuccess
             (ReportEntrySuccess.mk baseFeatureId locale upsert_locale
                documentId (ProFeature.name localized))
             (withRemote r st))
      | Throw err =>
          match formatError err with
          | Normal msg =>
              (Normal (),
               pushFailure
                 (ReportEntryFailure.mk baseFeatureId locale upsert_locale
                    msg row)
                 (withRemote r st))
          | Throw t => (Throw t, withRemote r st)
          end
      end
  end.

(** Step 2 of a row and the increment that follows it. *)
Definition upsertLocales (locales : list string) (row : CsvRow)
    (baseFeatureId documentId : string) (st : RunState) : Flow :=
  match forOf (upsertLocaleStep row baseFeatureId documentId) st locales with
  | (Normal _, st') => (Normal (), countRow st')
  | (Throw t, st') => (Throw t, st')
  end.

(** The handler of the [try] around step 1; it ends in [continue], unless
    [formatError] throws. *)
Definition baseFailed (defLocale : string) (row : CsvRow)
    (baseFeatureId : string) (err : JsVal) (st : RunState) : Flow :=
  match formatError err with
  | Normal msg =>
      (Normal (),
       pushFailure
         (ReportEntryFailure.mk baseFeatureId defLocale create_base msg row)
         st)
  | Throw t => (Throw t, st)
  end.

(** The body of [for (const row of records)]. *)
Definition processRow (defLocale : string) (locales : list string)
    (st : RunState) (row : CsvRow) : Flow :=
  match nonEmpty (cell row "feature_id") with
  | None =>
      (Normal (),
       pushFailure
         (ReportEntryFailure.mk "" defLocale create_base
            (Some "Missing feature_id") row)
         st)
  | Some baseFeatureId =>
      match nonEmpty (cell row defLocale) with
      | None =>
          (Normal (),
           pushFailure
             (ReportEntryFailure.mk baseFeatureId defLocale create_base
                (Some ("Missing name for default locale " +:+ dquote +:+
                       defLocale +:+ dquote))
                row)
             st)
      | Some baseName =>
          let '(found, r1) := findDocumentByFeatureId baseFeatureId (remote st) in
          match found with
          | Throw err =>
              baseFailed defLocale row baseFeatureId err (withRemote r1 st)
          | Normal None =>
              let '(created, r2) :=
                createBaseDocument baseFeatureId baseName defLocale r1 in
              match created with
              | Throw err =>
                  baseFailed defLocale row baseFeatureId err (withRemote r2 st)
              | Normal baseDoc =>
                  let documentId := ProFeature.documentId baseDoc in
                  upsertLocales locales row baseFeatureId documentId
                    (pushSuccess
                       (ReportEntrySuccess.mk baseFeatureId defLocale
                          create_base documentId (ProFeature.name baseDoc))
                       (withRemote r2 st))
              end
          | Normal (Some existing) =>
              let documentId := ProFeature.documentId existing in
              let '(updated, r2) :=
                upsertLocaleVersion documentId defLocale baseName r1 in
              match updated with
              | Throw err =>
                  baseFailed defLocale row baseFeatureId err (withRemote r2 st)
              | Normal updatedBase =>
                  upsertLocales locales row baseFeatureId documentId
                    (pushSuccess
                       (ReportEntrySuccess.mk baseFeatureId defLocale
                          update_base documentId (ProFeature.name updatedBase))
                       (withRemote r2 st))
              end
          end
      end
  end.

Definition processRows (defLocale : string) (locales : list string)
    (st : RunState) (records : list CsvRow) : Flow :=
  forOf (processRow defLocale locales) st records.

(** *** processCsv and main *)

Definition initialReport (defLocale : string) (locales : list string)
  : SyncReport :=
  {| defaultLocale := defLocale; otherLocales := locales;
     processedRows := 0; successes := []; failures := [] |}.

(** [headers.length < 2 || headers[0] !== 'feature_id'] *)
Definition headersRejected (headers : list string) : bool :=
  (length headers <? 2)%nat
  || negb (bool_decide (headers !! 0%nat = Some "feature_id")).

(** [ensureReportsDir()] *)
Definition ensureReportsDir (disk : Disk) : Completion unit :=
  match process_cwd disk with
  | Some message => Throw (JError message [])
  | None =>
      if existsSync_reportsDir disk then Normal ()
      else match mkdirSync disk with
           | None => Normal ()
           | Some message => Throw (JError message [])
           end
  end.

(** The end of [processCsv], after the loop: neither call is in a [try]. *)
Definition writeReport (disk : Disk) (rep : SyncReport) : Completion unit :=
  match ensureReportsDir disk with
  | Throw t => Throw t
  | Normal _ =>
      match writeFileSync disk rep with
      | None => Normal ()
      | Some message => Throw (JError message [])
      end
  end.

Definition processCsv (file : CsvFile) (disk : Disk) (r : Remote)
  : Outcome * Remote :=
  match file with
  | FileMissing => (Exited 1, r)
  | Unreadable message => (Rejected (JError message []), r)
  | Parsed _ records =>
      match records with
      | [] => (ReturnedEarly, r)
      | first :: _ =>
          let headers := Object_keys first in
          if headersRejected headers then (Exited 1, r)
          else
            let defLocale := default "" (headers !! 1%nat) in
            let locales := drop 2 headers in
            match processRows defLocale locales
                    {| remote := r;
                       report := initialReport defLocale locales |}
                    records with
            | (Throw t, st) => (Rejected t, remote st)
            | (Normal _, st) =>
                match writeReport disk (report st) with
                | Throw t => (Rejected t, remote st)
                | Normal _ => (ReportWritten (report st), remote st)
                end
            end
      end
  end.

(** The exit code of the process: [main] with [process.argv[2]] and the
    file system's answers, and the handler [main().catch(..)], which ends
    the process with code 1. *)
Definition main (csvPath : option string) (fs : string -> CsvFile)
    (disk : Disk) (r : Remote) : Z * Remote :=
  match nonEmpty csvPath with
  | None => (1%Z, r)
  | Some p =>
      match processCsv (fs p) disk r with
      | (Exited code, r') => (code, r')
      | (Rejected _, r') => (1%Z, r')
      | (ReturnedEarly, r') => (0%Z, r')
      | (ReportWritten _, r') => (0%Z, r')
      end
  end.

End Program.

(** How step 1 of a row (the [try] block up to its first [push]) ends. *)
Inductive BaseResult : Type :=
  | BaseOk (a : Action) (documentId name : string)
  | BaseThrew (err : JsVal).

Section BaseStep.

Variable W : Type.
Variable client_get :
  string -> W -> Completion (ListResponse ProFeature.t) * W.
Variable client_post :
  string -> string -> string -> W -> Completion ProFeature.t * W.
Variable client_put :
  string -> string -> string -> W -> Completion ProFeature.t * W.

Local Abbreviation Remote := (Remote W).
Local Abbreviation findDocumentByFeatureId := (findDocumentByFeatureId W).
Local Abbreviation createBaseDocument := (createBaseDocument W).
Local Abbreviation upsertLocaleVersion := (upsertLocaleVersion W).

(** Step 1 on its own: the lookup, then the creation or the update of the
    default locale.  [processRow_baseStep] shows that [processRow] does
    this and then records the result. *)
Definition baseStep (defLocale baseFeatureId baseName : string) (r : Remote)
  : BaseResult * Remote :=
  let '(found, r1) := findDocumentByFeatureId client_get baseFeatureId r in
  match found with
  | Throw err => (BaseThrew err, r1)
  | Normal None =>
      let '(created, r2) :=
        createBaseDocument client_post baseFeatureId baseName defLocale r1 in
      match created with
      | Throw err => (BaseThrew err, r2)
      | Normal baseDoc =>
          (BaseOk create_base (ProFeature.documentId baseDoc)
             (ProFeature.name baseDoc), r2)
      end
  | Normal (Some existing) =>
      let '(updated, r2) :=
        upsertLocaleVersion client_put (ProFeature.documentId existing)
          defLocale baseName r1 in
      match updated with
      | Throw err => (BaseThrew err, r2)
      | Normal updatedBase =>
          (BaseOk update_base (ProFeature.documentId existing)
             (ProFeature.name updatedBase), r2)
      end
  end.

(** Step 1 fails: the lookup, the creation or the update of the default
    locale throws [err], leaving the remote side in [r']. *)
Definition BaseStepThrows (defLocale baseFeatureId baseName : string)
    (r : Remote) (err : JsVal) (r' : Remote) : Prop :=
  findDocumentByFeatureId client_get baseFeatureId r = (Throw err, r')
  ∨ (∃ r1,
       findDocumentByFeatureId client_get baseFeatureId r = (Normal None, r1) ∧
       createBaseDocument client_post baseFeatureId baseName defLocale r1
         = (Throw err, r'))
  ∨ (∃ existing r1,
       findDocumentByFeatureId client_get baseFeatureId r
         = (Normal (Some existing), r1) ∧
       upsertLocaleVersion client_put (ProFeature.documentId existing)
         defLocale baseName r1 = (Throw err, r')).

End BaseStep.

End Sync.

Import Sync.

Arguments world {W} _.
Arguments calls {W} _.
Arguments remote {W} _.
Arguments report {W} _.

(** ** The built-ins on tree values

    [JSON.stringify] and [String] as ECMAScript defines them on the values of
    [JsVal], for the runs below.  An Error has no enumerable own property
    besides those it was given, so it prints as an object of these.  A tree
    holds no function: an own property [toString] is not callable, and the
    conversion of its object to a string throws. *)

Module Builtins.

Definition hexDigit (n : nat) : string :=
  String (nth n (String.list_ascii_of_string "0123456789abcdef") Ascii.zero) "".

Definition escapeChar (c : Ascii.ascii) : string :=
  let n := Ascii.nat_of_ascii c in
  if decide (n = 34) then "\" +:+ dquote
  else if decide (n = 92) then "\\"
  else if decide (n = 8) then "\b"
  else if decide (n = 9) then "\t"
  else if decide (n = 10) then "\n"
  else if decide (n = 12) then "\f"
  else if decide (n = 13) then "\r"
  else if decide (n < 32) then "\u00" +:+ hexDigit (n / 16) +:+ hexDigit (n mod 16)
  else String c "".

Fixpoint escape (s : string) : string :=
  match s with
  | EmptyString => ""
  | String c rest => escapeChar c +:+ escape rest
  end.

Definition quote (s : string) : string := dquote +:+ escape s +:+ dquote.

Fixpoint stringify (v : JsVal) : option string :=
  let member (p : string * JsVal) : option string :=
    match stringify (snd p) with
    | Some s => Some (quote (fst p) +:+ ":" +:+ s)
    | None => None
    end in
  match v with
  | JUndefined => None
  | JNull => Some "null"
  | JBool true => Some "true"
  | JBool false => Some "false"
  | JNum n => Some (pretty n)
  | JStr s => Some (quote s)
  | JArr items =>
      Some ("[" +:+ String.concat ","
                      (map (fun x => default "null" (stringify x)) items) +:+ "]")
  | JObj props | JError _ props =>
      Some ("{" +:+ String.concat "," (omap member props) +:+ "}")
  end.

Definition hasOwn (props : list (string * JsVal)) (k : string) : bool :=
  bool_decide (k ∈ props.*1).

Fixpoint toString (v : JsVal) : option string :=
  match v with
  | JUndefined => Some "undefined"
  | JNull => Some "null"
  | JBool true => Some "true"
  | JBool false => Some "false"
  | JNum n => Some (pretty n)
  | JStr s => Some s
  | JArr items =>
      String.concat "," <$>
        mapM (fun x => match x with
                       | JUndefined | JNull => Some ""
                       | _ => toString x
                       end) items
  | JObj props =>
      if hasOwn props "toString" then None else Some "[object Object]"
  | JError message props =>
      if hasOwn props "toString" then None
      else
        (* [Error.prototype.toString], for a [name] that is a string *)
        let name := match lookupProp props "name" with
                    | JStr s => s
                    | _ => "Error"
                    end in
        Some (if decide (message = "") then name else name +:+ ": " +:+ message)
  end.

End Builtins.

(** ** Vocabulary of the properties *)

Module Vocabulary.

(** The two presence checks at the head of the loop body. *)
Definition passesChecks (defLocale : string) (row : CsvRow) : bool :=
  bool_decide (is_Some (nonEmpty (cell row "feature_id")))
  && bool_decide (is_Some (nonEmpty (cell row defLocale))).

Definition isBaseAction (a : Action) : bool :=
  match a with create_base | update_base => true | upsert_locale => false end.

(** The locale columns of a row that hold a value, in column order. *)
Definition filled (row : CsvRow) (locales : list string) : list string :=
  filter (fun l => is_Some (nonEmpty (cell row l))) locales.

(** The locale a request writes. *)
Definition requestLocale (q : Request) : option string :=
  match q with
  | GET_pro_features _ => None
  | POST_pro_features _ _ l => Some l
  | PUT_pro_features _ l _ => Some l
  end.

(** The requests of step 2 of a row: one update per filled locale column. *)
Definition localePuts (row : CsvRow) (documentId : string)
    (locales : list string) : list Request :=
  omap (fun l => PUT_pro_features documentId l <$> nonEmpty (cell row l)) locales.

Definition isBaseSuccess (e : ReportEntrySuccess.t) : bool :=
  isBaseAction (ReportEntrySuccess.action e).

Definition isBaseFailure (e : ReportEntryFailure.t) : bool :=
  isBaseAction (ReportEntryFailure.action e).

(** The successes one row may contribute: nothing, or its base entry followed
    by entries of its filled locale columns, in column order. *)
Definition RowSuccesses (defLocale : string) (locales : list string)
    (row : CsvRow) (chunk : list ReportEntrySuccess.t) : Prop :=
  chunk = [] ∨
  ∃ base locs,
    chunk = base :: locs ∧
    isBaseSuccess base = true ∧
    ReportEntrySuccess.locale base = defLocale ∧
    nonEmpty (cell row "feature_id") = Some (ReportEntrySuccess.featureId base) ∧
    Forall (fun e => ReportEntrySuccess.action e = upsert_locale ∧
                     ReportEntrySuccess.featureId e = ReportEntrySuccess.featureId base ∧
                     ReportEntrySuccess.documentId e = ReportEntrySuccess.documentId base)
           locs ∧
    ReportEntrySuccess.locale <$> locs `sublist_of` filled row locales.

(** The failures one row may contribute: its base entry alone, or entries of
    its filled locale columns, in column order. *)
Definition RowFailures (defLocale : string) (locales : list string)
    (row : CsvRow) (chunk : list ReportEntryFailure.t) : Prop :=
  Forall (fun f => ReportEntryFailure.row f = row) chunk ∧
  ((∃ f, chunk = [f] ∧ ReportEntryFailure.action f = create_base ∧
         ReportEntryFailure.locale f = defLocale) ∨
   (Forall (fun f => ReportEntryFailure.action f = upsert_locale) chunk ∧
    ReportEntryFailure.locale <$> chunk `sublist_of` filled row locales)).

(** What [for (const locale of otherLocales)] does to the state, whether
    it runs to its end or an exception escapes it: the requests are those of
    the filled locale columns, all of them when the loop ends normally. *)
Definition LocaleLoop {W : Type} (row : CsvRow) (fid d : string)
    (locales : list string) (st : RunState W) (out : Flow W) : Prop :=
  ∃ ds df sent,
    successes (report out.2) = successes (report st) ++ ds ∧
    failures (report out.2) = failures (report st) ++ df ∧
    calls (remote out.2) = calls (remote st) ++ sent ∧
    processedRows (report out.2) = processedRows (report st) ∧
    defaultLocale (report out.2) = defaultLocale (report st) ∧
    otherLocales (report out.2) = otherLocales (report st) ∧
    Forall (fun e => ReportEntrySuccess.action e = upsert_locale ∧
                     ReportEntrySuccess.featureId e = fid ∧
                     ReportEntrySuccess.documentId e = d) ds ∧
    Forall (fun f => ReportEntryFailure.action f = upsert_locale ∧
                     ReportEntryFailure.featureId f = fid ∧
                     ReportEntryFailure.row f = row) df ∧
    ReportEntrySuccess.locale <$> ds `sublist_of` filled row locales ∧
    ReportEntryFailure.locale <$> df `sublist_of` filled row locales ∧
    sent `prefix_of` localePuts row d locales ∧
    (out.1 = Normal () →
     sent = localePuts row d locales ∧
     length ds + length df = length (filled row locales)).

(** What one row that is processed to its end contributes to the two lists
    of the report. *)
Definition RowChunks (defLocale : string) (locales : list string)
    (row : CsvRow)
    (c : list ReportEntrySuccess.t * list ReportEntryFailure.t) : Prop :=
  RowSuccesses defLocale locales row c.1 ∧
  RowFailures defLocale locales row c.2 ∧
  length (List.filter isBaseSuccess c.1)
    + length (List.filter isBaseFailure c.2) = 1 ∧
  (passesChecks defLocale row = false → c.1 = []).

(** The requests one row may send: those of step 1, which write the default
    locale only, then those of its filled locale columns. *)
Definition RowCalls (defLocale : string) (locales : list string)
    (row : CsvRow) (cs : list Request) : Prop :=
  Forall (fun q => requestLocale q = None ∨ requestLocale q = Some defLocale ∨
                   ∃ l, requestLocale q = Some l ∧ l ∈ filled row locales) cs ∧
  (passesChecks defLocale row = false → cs = []).

(** What one iteration of the loop over the records does to the state,
    whether it ends normally or an exception escapes it. *)
Definition RowEffect {W : Type} (defLocale : string) (locales : list string)
    (row : CsvRow) (st : RunState W) (out : Flow W) : Prop :=
  ∃ c cs,
    successes (report out.2) = successes (report st) ++ c.1 ∧
    failures (report out.2) = failures (report st) ++ c.2 ∧
    calls (remote out.2) = calls (remote st) ++ cs ∧
    defaultLocale (report out.2) = defaultLocale (report st) ∧
    otherLocales (report out.2) = otherLocales (report st) ∧
    RowSuccesses defLocale locales row c.1 ∧
    RowFailures defLocale locales row c.2 ∧
    RowCalls defLocale locales row cs ∧
    (out.1 = Normal () →
     RowChunks defLocale locales row c ∧
     processedRows (report out.2)
       = processedRows (report st) + length (List.filter isBaseSuccess c.1)).

(** Failures of a base step that the remote side caused: the row itself
    passed the two presence checks. *)
Definition isRemoteBaseFailure (defLocale : string)
    (f : ReportEntryFailure.t) : bool :=
  isBaseFailure f && passesChecks defLocale (ReportEntryFailure.row f).

(** The kinds of thrown values [formatError] tells apart. *)
Inductive ErrorKind : Type :=
  | StructuredBody (e : JsVal)     (* [err.response.data.error] is truthy *)
  | ResponseOnly (data : JsVal)    (* a response without such a body *)
  | PlainError (message : string)  (* an Error without a response *)
  | OtherValue.

Definition errorKind (err : JsVal) : ErrorKind :=
  if truthy (getProp err "response") then
    let data := getProp (getProp err "response") "data" in
    if truthy (getProp data "error") then StructuredBody (getProp data "error")
    else ResponseOnly data
  else
    match err with
    | JError message _ => PlainError message
    | _ => OtherValue
    end.

Section Formatting.

Variable JSON_stringify : JsVal -> option string.
Variable String_ : JsVal -> option string.

(** [`${e.name || 'Error'}: ${e.message || JSON.stringify(e)}`] *)
Definition structuredMessage (e : JsVal) : Completion (option string) :=
  match toStr String_ (or_else (getProp e "name") (JStr "Error")) with
  | Throw t => Throw t
  | Normal name =>
      match (if truthy (getProp e "message")
             then toStr String_ (getProp e "message")
             else Normal (default "undefined" (JSON_stringify e))) with
      | Throw t => Throw t
      | Normal message => Normal (Some (name +:+ ": " +:+ message))
      end
  end.

End Formatting.

(** The columns [processCsv] reads off the first record. *)
Definition defaultLocaleOf (records : list CsvRow) : string :=
  default "" (Object_keys (default [] (head records)) !! 1).

Definition otherLocalesOf (records : list CsvRow) : list string :=
  drop 2 (Object_keys (default [] (head records))).

(** The state in which the loop of [processCsv], started against [r], reaches
    the record of index [i]; there is none when an exception has escaped an
    earlier record. *)
Definition stateAt {W : Type}
    (client_get : string -> W -> Completion (ListResponse ProFeature.t) * W)
    (client_post client_put :
       string -> string -> string -> W -> Completion ProFeature.t * W)
    (JSON_stringify : JsVal -> option string) (String_ : JsVal -> option string)
    (records : list CsvRow) (r : Remote W) (i : nat) : option (RunState W) :=
  match processRows W client_get client_post client_put JSON_stringify String_
          (defaultLocaleOf records) (otherLocalesOf records)
          {| remote := r;
             report := initialReport (defaultLocaleOf records)
                         (otherLocalesOf records) |}
          (take i records) with
  | (Normal _, st) => Some st
  | (Throw _, _) => None
  end.

(** *** The remote side as a state

    A record is discoverable by its feature id when the lookup answers with a
    first match. *)
Definition Discoverable {W : Type}
    (client_get : string -> W -> Completion (ListResponse ProFeature.t) * W)
    (w : W) (f : string) : Prop :=
  ∃ doc docs m w',
    client_get f w = (Normal {| data := doc :: docs; meta := m |}, w').

(** What a second run relies on: a successful creation makes the record
    discoverable by its feature id, and no request makes a discoverable
    record disappear. *)
Record DiscoveryLaws {W : Type}
    (client_get : string -> W -> Completion (ListResponse ProFeature.t) * W)
    (client_post client_put :
       string -> string -> string -> W -> Completion ProFeature.t * W)
  : Prop := {
  created_discoverable f n l w doc w' :
    client_post f n l w = (Normal doc, w') → Discoverable client_get w' f;
  get_keeps f g w :
    Discoverable client_get w f → Discoverable client_get (client_get g w).2 f;
  post_keeps f g n l w :
    Discoverable client_get w f →
    Discoverable client_get (client_post g n l w).2 f;
  put_keeps f d l n w :
    Discoverable client_get w f →
    Discoverable client_get (client_put d l n w).2 f
  }.

(** A remote side that, besides, accepts the update of a document a lookup
    has found. *)
Record RemoteLaws {W : Type}
    (client_get : string -> W -> Completion (ListResponse ProFeature.t) * W)
    (client_post client_put :
       string -> string -> string -> W -> Completion ProFeature.t * W)
  : Prop := {
  discovery : DiscoveryLaws client_get client_post client_put;
  found_updatable f w res doc w' l n :
    client_get f w = (Normal res, w') →
    head (data res) = Some doc →
    ∃ v w'', client_put (ProFeature.documentId doc) l n w' = (Normal v, w'')
  }.

End Vocabulary.

Import Vocabulary.

(** ** Disks

    A disk on which the report can be written, and one that is full. *)

Definition writable : Disk :=
  {| process_cwd := None;
     existsSync_reportsDir := false;
     mkdirSync := None;
     writeFileSync := fun _ => None |}.

Definition full : Disk :=
  {| process_cwd := None;
     existsSync_reportsDir := true;
     mkdirSync := None;
     writeFileSync := fun _ => Some "ENOSPC: no space left on device, write" |}.

(** ** A collection held in memory

    A remote side to run the program against.  The collection is the list of
    the stored locale versions; [rejects] says which requests the server
    turns down, and with what error. *)

Module Memory.

Definition W : Type := list ProFeature.t.

Definition onePage : PaginationMeta :=
  {| page := 1; pageSize := 1; pageCount := 1; total := 1 |}.

Definition hasFeature (f : string) (d : ProFeature.t) : bool :=
  bool_decide (ProFeature.feature_id d = f).

Definition hasDocument (d : string) (x : ProFeature.t) : bool :=
  bool_decide (ProFeature.documentId x = d).

Definition notFound : JsVal :=
  JError "Request failed with status code 404"
    [("response",
      JObj [("data",
             JObj [("error",
                    JObj [("name", JStr "NotFoundError");
                          ("message", JStr "Not Found")])])])].

Section Faults.

Variable rejects : Request -> option JsVal.

Definition get (f : string) (w : W)
  : Completion (ListResponse ProFeature.t) * W :=
  match rejects (GET_pro_features f) with
  | Some err => (Throw err, w)
  | None =>
      (Normal {| data := take 1 (List.filter (hasFeature f) w);
                 meta := onePage |}, w)
  end.

Definition post (f n l : string) (w : W) : Completion ProFeature.t * W :=
  match rejects (POST_pro_features f n l) with
  | Some err => (Throw err, w)
  | None =>
      let doc := ProFeature.mk (Z.of_nat (length w) + 1) ("doc-" +:+ f) f n
                   "" "" None l in
      (Normal doc, w ++ [doc])
  end.

Definition put (d l n : string) (w : W) : Completion ProFeature.t * W :=
  match rejects (PUT_pro_features d l n) with
  | Some err => (Throw err, w)
  | None =>
      match List.find (hasDocument d) w with
      | None => (Throw notFound, w)
      | Some doc =>
          let v := ProFeature.mk (Z.of_nat (length w) + 1) d
                     (ProFeature.feature_id doc) n "" "" None l in
          (Normal v, w ++ [v])
      end
  end.

Definition start (w : W) : Remote W := {| world := w; calls := [] |}.

Definition runOn (disk : Disk) (file : CsvFile) (w : W) : Outcome * Remote W :=
  processCsv W get post put Builtins.stringify Builtins.toString
    file disk (start w).

Definition run (file : CsvFile) (w : W) : Outcome * Remote W :=
  runOn writable file w.

(** The loop body, and the loop of [processCsv] up to record [i]. *)
Definition row (defLocale : string) (locales : list string)
    (st : RunState W) (r : CsvRow) : Flow W :=
  processRow W get post put Builtins.stringify Builtins.toString
    defLocale locales st r.

Definition reached (records : list CsvRow) (r : Remote W) (i : nat)
  : option (RunState W) :=
  Vocabulary.stateAt get post put Builtins.stringify Builtins.toString
    records r i.

(** The state in which [processCsv] enters its loop. *)
Definition fresh (defLocale : string) (locales : list string) (w : W)
  : RunState W :=
  {| remote := start w; report := initialReport defLocale locales |}.

End Faults.

(** A server that turns nothing down. *)
Definition reliable (_ : Request) : option JsVal := None.

(** A server that cannot be reached: every lookup fails in the transport,
    with an Error that carries no response. *)
Definition unreachable (q : Request) : option JsVal :=
  match q with
  | GET_pro_features _ => Some (JError "Network Error" [])
  | _ => None
  end.

Definition forbidden : JsVal :=
  JError "Request failed with status code 403"
    [("response",
      JObj [("data",
             JObj [("error",
                    JObj [("name", JStr "ForbiddenError");
                          ("message", JStr "Forbidden")])])])].

(** A server that refuses every update of a locale version. *)
Definition readOnly (q : Request) : option JsVal :=
  match q with
  | PUT_pro_features _ _ _ => Some forbidden
  | _ => None
  end.

(** The response body [{"error": {"name": {"toString": 1}, "message":
    "Internal Server Error"}}]: where the name of the error should be, an
    object that cannot be converted to a string. *)
Definition garbled : JsVal :=
  JError "Request failed with status code 500"
    [("response",
      JObj [("data",
             JObj [("error",
                    JObj [("name", JObj [("toString", JNum 1)]);
                          ("message", JStr "Internal Server Error")])])])].

(** A server that answers every lookup with that body. *)
Definition garbling (q : Request) : option JsVal :=
  match q with
  | GET_pro_features _ => Some garbled
  | _ => None
  end.

(** A server that answers every update of the locale [vi] with it. *)
Definition garblingVi (q : Request) : option JsVal :=
  match q with
  | PUT_pro_features _ "vi" _ => Some garbled
  | _ => None
  end.

End Memory.

(** The CSV of the specification's scenario:
    [feature_id,en,vi / F1,Hello,Xin chao / F2,World,]. *)
Definition scenarioHeader : list string := ["feature_id"; "en"; "vi"].

Definition scenario : list CsvRow :=
  [ [("feature_id", "F1"); ("en", "Hello"); ("vi", "Xin chao")];
    [("feature_id", "F2"); ("en", "World"); ("vi", "")] ].

Definition rowF1 : CsvRow :=
  [("feature_id", "F1"); ("en", "Hello"); ("vi", "Xin chao")].

Definition rowF2 : CsvRow :=
  [("feature_id", "F2"); ("en", "World"); ("vi", "")].

(** A header line that the validation rejects. *)
Definition malformedHeader : list string := ["id"; "en"].

(** A row without identifier. *)
Definition rowAnonymous : CsvRow :=
  [("feature_id", ""); ("en", "Hello"); ("vi", "Xin chao")].

(** The collection after [F1] was created. *)
Definition storedF1 : Memory.W :=
  [ProFeature.mk 1 "doc-F1" "F1" "Hello" "" "" None "en"].



(** ** The logger

    [logger.ts]: a line is formatted with the clock's timestamp, printed on
    the console and appended to the log file.  The clock is an input: [ts] is
    the value of [new Date().toISOString()] at the call. *)

Module Logger.

Inductive LogLevel : Type := info | warn | error.

Global Instance LogLevel_eq_dec : EqDecision LogLevel.
Proof. solve_decision. Defined.

Definition newline : string := String (Ascii.ascii_of_nat 10) EmptyString.

(** [level.toUpperCase()] *)
Definition toUpperCase (level : LogLevel) : string :=
  match level with
  | info => "INFO"
  | warn => "WARN"
  | error => "ERROR"
  end.

(** [format(level, msg)] *)
Definition format (level : LogLevel) (msg ts : string) : string :=
  "[" +:+ ts +:+ "] [" +:+ toUpperCase level +:+ "] " +:+ msg.

(** [console.log] prints on the standard output, [console.warn] and
    [console.error] on the standard error. *)
Inductive Stream : Type := stdout | stderr.

Definition streamOf (level : LogLevel) : Stream :=
  match level with
  | info => stdout
  | warn | error => stderr
  end.

(** What the logger writes to: the console and the content of [logFile]. *)
Record Sink : Type := {
  console : list (Stream * string);
  logFile : string
}.

(** [write(line)]: [fs.appendFileSync(logFile, line + '\n', 'utf8')] *)
Definition write (line : string) (s : Sink) : Sink :=
  {| console := console s; logFile := logFile s +:+ line +:+ newline |}.

(** [logger.info], [logger.warn] and [logger.error], by their level. *)
Definition log (level : LogLevel) (msg ts : string) (s : Sink) : Sink :=
  let line := format level msg ts in
  write line
    {| console := console s ++ [(streamOf level, line)];
       logFile := logFile s |}.

(** A sequence of calls of the logger, each with its message and the time
    at which it is made. *)
Definition logAll (calls : list (LogLevel * string * string)) (s : Sink) : Sink :=
  foldl (fun s c => log c.1.1 c.1.2 c.2 s) s calls.

(** The characters [:], [.] and [-]. *)
Definition colon : Ascii.ascii := Ascii.ascii_of_nat 58.
Definition dot : Ascii.ascii := Ascii.ascii_of_nat 46.
Definition dash : Ascii.ascii := Ascii.ascii_of_nat 45.

(** [iso.replace(/[:.]/g, '-')] *)
Fixpoint replaceColonDot (s : string) : string :=
  match s with
  | EmptyString => EmptyString
  | String c rest =>
      String (if decide (c = colon ∨ c = dot) then dash else c)
        (replaceColonDot rest)
  end.

(** The name of the log file, [iso] being the time at which the module is
    loaded. *)
Definition logFileName (iso : string) : string :=
  "pro-feature-sync-" +:+ replaceColonDot iso +:+ ".log".

End Logger.

(** The name of the report file of [processCsv], [iso] being the time at
    which the report is written. *)
Definition reportFileName (iso : string) : string :=
  "pro-feature-sync-report-" +:+ Logger.replaceColonDot iso +:+ ".json".

(** The number of occurrences of a character in a string. *)
Fixpoint occurrences (c : Ascii.ascii) (s : string) : nat :=
  match s with
  | EmptyString => 0
  | String c' rest => (if decide (c' = c) then 1 else 0) + occurrences c rest
  end.

(** ** What the program logs

    The messages the client, [processCsv] and [main] hand to the logger, in
    the order of the calls.  The state a message is computed in is the state
    of the run at that point, as [Sync] defines it. *)

Module Journal.

Definition Entry : Type := Logger.LogLevel * string.

(** The line a function of the client logs before it sends its request. *)
Definition announce (q : Request) : string :=
  match q with
  | GET_pro_features f => "GET /pro-features?feature_id=" +:+ f
  | POST_pro_features f n l =>
      "POST /pro-features (base) feature_id=" +:+ f +:+ ", locale=" +:+ l
  | PUT_pro_features d l n =>
      "PUT /pro-features/" +:+ d +:+ "?locale=" +:+ l +:+
      " (create/update locale version)"
  end.

(** [`${msg}`] for the result of [formatError] *)
Definition shown (msg : option string) : string := default "undefined" msg.

(** strapiClient.ts, when the module is loaded: the warning about the
    token. *)
Definition clientLoadLog (token : option string) : list Entry :=
  match nonEmpty token with
  | Some _ => []
  | None =>
      [(Logger.warn,
        "STRAPI_API_TOKEN is not set. Authenticated requests will fail.[web:64][web:66]")]
  end.

Section Messages.

Variable W : Type.
Variable client_get :
  string -> W -> Completion (ListResponse ProFeature.t) * W.
Variable client_post :
  string -> string -> string -> W -> Completion ProFeature.t * W.
Variable client_put :
  string -> string -> string -> W -> Completion ProFeature.t * W.
Variable JSON_stringify : JsVal -> option string.
Variable String_ : JsVal -> option string.

(** One iteration of the loop over the locales.  When [formatError] throws
    in the handler, the handler logs nothing. *)
Definition upsertLocaleStepLog (row : CsvRow) (baseFeatureId documentId : string)
    (st : RunState W) (locale : string) : list Entry :=
  match nonEmpty (cell row locale) with
  | None =>
      [(Logger.info,
        "Locale " +:+ dquote +:+ locale +:+ dquote +:+ " empty for feature_id=" +:+
        baseFeatureId +:+ ", skipping.")]
  | Some localizedName =>
      (Logger.info, announce (PUT_pro_features documentId locale localizedName)) ::
      match (upsertLocaleVersion W client_put documentId locale localizedName
               (remote st)).1 with
      | Normal _ => []
      | Throw err =>
          match formatError JSON_stringify String_ err with
          | Normal msg =>
              [(Logger.error,
                "Error processing locale=" +:+ locale +:+ " for feature_id=" +:+
                baseFeatureId +:+ ": " +:+ shown msg)]
          | Throw _ => []
          end
      end
  end.

(** The loop over the locales: it ends where an exception escapes. *)
Fixpoint localesLog (row : CsvRow) (baseFeatureId documentId : string)
    (st : RunState W) (locales : list string) : list Entry :=
  match locales with
  | [] => []
  | locale :: rest =>
      upsertLocaleStepLog row baseFeatureId documentId st locale ++
      match upsertLocaleStep W client_put JSON_stringify String_
              row baseFeatureId documentId st locale with
      | (Normal _, st') => localesLog row baseFeatureId documentId st' rest
      | (Throw _, _) => []
      end
  end.

Definition baseFailedLog (baseFeatureId : string) (err : JsVal) : list Entry :=
  match formatError JSON_stringify String_ err with
  | Normal msg =>
      [(Logger.error,
        "Error processing base locale for feature_id=" +:+ baseFeatureId +:+
        ": " +:+ shown msg)]
  | Throw _ => []
  end.

(** The body of the loop over the records. *)
Definition processRowLog (defLocale : string) (locales : list string)
    (st : RunState W) (row : CsvRow) : list Entry :=
  match nonEmpty (cell row "feature_id") with
  | None => [(Logger.warn, "Skipping row without feature_id")]
  | Some baseFeatureId =>
      match nonEmpty (cell row defLocale) with
      | None =>
          [(Logger.warn,
            "Skipping feature_id=" +:+ baseFeatureId +:+
            " because default locale " +:+ dquote +:+ defLocale +:+ dquote +:+
            " name is empty")]
      | Some baseName =>
          (Logger.info,
           Logger.newline +:+ "=== Processing feature_id=" +:+ dquote +:+
           baseFeatureId +:+ dquote +:+ " ===") ::
          (Logger.info, announce (GET_pro_features baseFeatureId)) ::
          let '(found, r1) :=
            findDocumentByFeatureId W client_get baseFeatureId (remote st) in
          match found with
          | Throw err => baseFailedLog baseFeatureId err
          | Normal None =>
              (Logger.info,
               "No existing document. Creating base document feature_id=" +:+
               baseFeatureId +:+ ", locale=" +:+ defLocale) ::
              (Logger.info,
               announce (POST_pro_features baseFeatureId baseName defLocale)) ::
              let '(created, r2) :=
                createBaseDocument W client_post baseFeatureId baseName
                  defLocale r1 in
              match created with
              | Throw err => baseFailedLog baseFeatureId err
              | Normal baseDoc =>
                  let documentId := ProFeature.documentId baseDoc in
                  localesLog row baseFeatureId documentId
                    (pushSuccess W
                       (ReportEntrySuccess.mk baseFeatureId defLocale
                          create_base documentId (ProFeature.name baseDoc))
                       (withRemote W r2 st))
                    locales
              end
          | Normal (Some existing) =>
              let documentId := ProFeature.documentId existing in
              (Logger.info,
               "Found existing documentId=" +:+ documentId +:+
               ". Updating base locale=" +:+ defLocale) ::
              (Logger.info,
               announce (PUT_pro_features documentId defLocale baseName)) ::
              let '(updated, r2) :=
                upsertLocaleVersion W client_put documentId defLocale baseName
                  r1 in
              match updated with
              | Throw err => baseFailedLog baseFeatureId err
              | Normal updatedBase =>
                  localesLog row baseFeatureId documentId
                    (pushSuccess W
                       (ReportEntrySuccess.mk baseFeatureId defLocale
                          update_base documentId (ProFeature.name updatedBase))
                       (withRemote W r2 st))
                    locales
              end
          end
      end
  end.

(** The loop over the records: it ends where an exception escapes. *)
Fixpoint processRowsLog (defLocale : string) (locales : list string)
    (st : RunState W) (records : list CsvRow) : list Entry :=
  match records with
  | [] => []
  | row :: rest =>
      processRowLog defLocale locales st row ++
      match processRow W client_get client_post client_put JSON_stringify
              String_ defLocale locales st row with
      | (Normal _, st') => processRowsLog defLocale locales st' rest
      | (Throw _, _) => []
      end
  end.

(** [otherLocales.join(', ') || '(none)'] *)
Definition joinedOrNone (locales : list string) : string :=
  match nonEmpty (Some (String.concat ", " locales)) with
  | Some joined => joined
  | None => "(none)"
  end.

Definition summaryLine (rep : SyncReport) : string :=
  "Summary: processed=" +:+ pretty (processedRows rep) +:+
  ", success=" +:+ pretty (length (successes rep)) +:+
  ", failures=" +:+ pretty (length (failures rep)).

(** [processCsv]: [absPath] is [path.resolve(filePath)] and [reportFile] the
    path of the report.  The two last lines are logged once the report is
    written. *)
Definition processCsvLog (absPath reportFile : string) (file : CsvFile)
    (disk : Disk) (r : Remote W) : list Entry :=
  match file with
  | FileMissing => [(Logger.error, "CSV file not found: " +:+ absPath)]
  | Unreadable _ => []
  | Parsed _ records =>
      match records with
      | [] => [(Logger.warn, "CSV has no rows.")]
      | first :: _ =>
          let headers := Object_keys first in
          if headersRejected headers then
            [(Logger.error,
              "CSV must have at least columns: feature_id,en,... and feature_id must be first column.")]
          else
            let defLocale := default "" (headers !! 1%nat) in
            let locales := drop 2 headers in
            let st0 := {| remote := r;
                          report := initialReport defLocale locales |} in
            (Logger.info,
             "Default locale: " +:+ defLocale +:+ ", other locales: " +:+
             joinedOrNone locales) ::
            processRowsLog defLocale locales st0 records ++
            match (processCsv W client_get client_post client_put
                     JSON_stringify String_ file disk r).1 with
            | ReportWritten rep =>
                [(Logger.info,
                  Logger.newline +:+ "Sync complete. Report written to: " +:+
                  reportFile);
                 (Logger.info, summaryLine rep)]
            | _ => []
            end
      end
  end.

(** The handler of [main().catch(..)]; the conversion [String(err)] can
    throw as well, and then nothing is logged. *)
Definition fatalLog (err : JsVal) : list Entry :=
  match err with
  | JError message _ => [(Logger.error, "Fatal error: " +:+ message)]
  | _ =>
      match toStr String_ err with
      | Normal shown => [(Logger.error, "Fatal error: " +:+ shown)]
      | Throw _ => []
      end
  end.

(** [main] and the handler of its rejection, with the value of
    [process.env.STRAPI_API_TOKEN]. *)
Definition mainLog (csvPath token : option string)
    (resolve : string -> string) (reportFile : string)
    (fs : string -> CsvFile) (disk : Disk) (r : Remote W) : list Entry :=
  match nonEmpty csvPath with
  | None => [(Logger.error, "Usage: npm run sync -- <path-to-csv>")]
  | Some p =>
      match nonEmpty token with
      | Some _ => []
      | None =>
          [(Logger.warn,
            "STRAPI_API_TOKEN is not set. Set it to a Strapi API token with read/write on pro-features.[web:64][web:66]")]
      end ++
      processCsvLog (resolve p) reportFile (fs p) disk r ++
      match (processCsv W client_get client_post client_put JSON_stringify
               String_ (fs p) disk r).1 with
      | Rejected err => fatalLog err
      | _ => []
      end
  end.

(** The log of a run of the script: the client is loaded, then [main]
    runs. *)
Definition runLog (csvPath token : option string)
    (resolve : string -> string) (reportFile : string)
    (fs : string -> CsvFile) (disk : Disk) (r : Remote W) : list Entry :=
  clientLoadLog token ++ mainLog csvPath token resolve reportFile fs disk r.

End Messages.

(** The messages that are announcements of requests. *)
Definition isAnnouncement (msg : string) : bool :=
  String.prefix "GET /pro-features" msg
  || String.prefix "POST /pro-features" msg
  || String.prefix "PUT /pro-features" msg.

Definition announcements (log : list Entry) : list string :=
  List.filter isAnnouncement log.*2.

Definition countLevel (level : Logger.LogLevel) (log : list Entry) : nat :=
  length (List.filter (fun e => bool_decide (e.1 = level)) log).

End Journal.

(** ** More vocabulary *)

(** No creation without a lookup: a request that creates a document comes
    right after the lookup of the same feature id. *)
Definition LookupFirst (cs : list Request) : Prop :=
  ∀ i f n l,
    cs !! i = Some (POST_pro_features f n l) →
    ∃ j, i = S j ∧ cs !! j = Some (GET_pro_features f).

(** A remote side none of whose operations throws. *)
Definition NeverThrows {W : Type}
    (client_get : string -> W -> Completion (ListResponse ProFeature.t) * W)
    (client_post client_put :
       string -> string -> string -> W -> Completion ProFeature.t * W)
  : Prop :=
  (∀ f w, ∃ res w', client_get f w = (Normal res, w')) ∧
  (∀ f n l w, ∃ doc w', client_post f n l w = (Normal doc, w')) ∧
  (∀ d l n w, ∃ doc w', client_put d l n w = (Normal doc, w')).

(** Whether a failure entry carries a row that failed a presence check. *)
Definition isCheckFailure (defLocale : string) (f : ReportEntryFailure.t) : bool :=
  negb (passesChecks defLocale (ReportEntryFailure.row f)).

Definition isRemoteFailure (defLocale : string) (f : ReportEntryFailure.t) : bool :=
  passesChecks defLocale (ReportEntryFailure.row f).

(** The number of filled locale cells of the rows that pass the checks. *)
Definition filledCells (defLocale : string) (locales : list string)
    (records : list CsvRow) : nat :=
  sum_list ((fun row => length (filled row locales))
              <$> List.filter (passesChecks defLocale) records).

(** A server that accepts everything and stores nothing. *)
Module Accepting.

Definition get (f : string) (w : unit)
  : Completion (ListResponse ProFeature.t) * unit :=
  (Normal {| data := [];
             meta := {| page := 1; pageSize := 1; pageCount := 0; total := 0 |} |},
   w).

Definition post (f n l : string) (w : unit) : Completion ProFeature.t * unit :=
  (Normal (ProFeature.mk 1 ("doc-" +:+ f) f n "" "" None l), w).

Definition put (d l n : string) (w : unit) : Completion ProFeature.t * unit :=
  (Normal (ProFeature.mk 1 d "" n "" "" None l), w).

Definition run (file : CsvFile) : Outcome * Remote unit :=
  processCsv unit get post put Builtins.stringify Builtins.toString file
    writable {| world := (); calls := [] |}.

End Accepting.

(** ** Properties *)

(** Proves [Forall P] of an explicit list, element by element. *)
Ltac Forall_each :=
  simpl;
  repeat match goal with
         | |- Forall _ (_ :: _) => constructor; [simpl; auto|]
         | |- Forall _ [] => constructor
         end.

(** *** Filled locale columns *)

Lemma filled_cons row l locales :
  filled row (l :: locales) =
  match nonEmpty (cell row l) with
  | Some _ => l :: filled row locales
  | None => filled row locales
  end.
Proof.
  unfold filled. rewrite filter_cons.
  destruct (nonEmpty (cell row l)) as [x|].
  - rewrite decide_True; eauto.
  - rewrite decide_False; [done|]. by intros [? ?].
Qed.

Lemma localePuts_cons row d l locales :
  localePuts row d (l :: locales) =
  match nonEmpty (cell row l) with
  | Some n => PUT_pro_features d l n :: localePuts row d locales
  | None => localePuts row d locales
  end.
Proof. unfold localePuts. simpl. by destruct (nonEmpty (cell row l)). Qed.

Section Facts.

Context {W : Type}.
Variable client_get :
  string -> W -> Completion (ListResponse ProFeature.t) * W.
Variable client_post :
  string -> string -> string -> W -> Completion ProFeature.t * W.
Variable client_put :
  string -> string -> string -> W -> Completion ProFeature.t * W.
Variable JSON_stringify : JsVal -> option string.
Variable String_ : JsVal -> option string.

Local Abbreviation toStr := (toStr String_).
Local Abbreviation formatError := (formatError JSON_stringify String_).
Local Abbreviation upsertLocaleVersion := (upsertLocaleVersion W client_put).
Local Abbreviation upsertLocaleStep :=
  (upsertLocaleStep W client_put JSON_stringify String_).
Local Abbreviation upsertLocales :=
  (upsertLocales W client_put JSON_stringify String_).
Local Abbreviation baseFailed := (baseFailed W JSON_stringify String_).
Local Abbreviation baseStep := (baseStep W client_get client_post client_put).
Local Abbreviation BaseStepThrows :=
  (BaseStepThrows W client_get client_post client_put).
Local Abbreviation findDocumentByFeatureId :=
  (findDocumentByFeatureId W client_get).
Local Abbreviation createBaseDocument := (createBaseDocument W client_post).
Local Abbreviation processRow :=
  (processRow W client_get client_post client_put JSON_stringify String_).
Local Abbreviation processRows :=
  (processRows W client_get client_post client_put JSON_stringify String_).
Local Abbreviation processCsv :=
  (processCsv W client_get client_post client_put JSON_stringify String_).
Local Abbreviation main :=
  (main W client_get client_post client_put JSON_stringify String_).
Local Abbreviation stateAt :=
  (stateAt client_get client_post client_put JSON_stringify String_).
Local Abbreviation structuredMessage :=
  (structuredMessage JSON_stringify String_).
Local Abbreviation forOf := (forOf W).
Local Abbreviation RunState := (RunState W).
Local Abbreviation Remote := (Remote W).
Local Abbreviation Flow := (Flow W).

Implicit Types (st : RunState) (r : Remote) (row : CsvRow)
  (locales : list string) (records : list CsvRow) (disk : Disk).

(** *** Loops that an exception can end *)

Lemma forOf_app {A : Type} (body : RunState -> A -> Flow) st xs ys :
  forOf body st (xs ++ ys) =
  match forOf body st xs with
  | (Normal _, st') => forOf body st' ys
  | (Throw t, st') => (Throw t, st')
  end.
Proof.
  revert st. induction xs as [|x xs IH]; intros st; [done|].
  simpl. destruct (body st x) as [[[]|t] st']; [apply IH|done].
Qed.

(** A loop that ends normally has run its body on every element. *)
Lemma forOf_normal_cons {A : Type} (body : RunState -> A -> Flow) st x xs st' :
  forOf body st (x :: xs) = (Normal (), st') ↔
  ∃ st1, body st x = (Normal (), st1) ∧ forOf body st1 xs = (Normal (), st').
Proof.
  simpl. destruct (body st x) as [[[]|t] st1]; split.
  - eauto.
  - by intros (? & [= <-] & ?).
  - discriminate.
  - by intros (? & [=] & _).
Qed.

(** *** The shape of one row *)

(** [processRow] is the two checks, step 1, and the recording of its
    result. *)
Lemma processRow_baseStep defLocale locales st row :
  processRow defLocale locales st row =
  match nonEmpty (cell row "feature_id") with
  | None =>
      (Normal (),
       pushFailure W
         (ReportEntryFailure.mk "" defLocale create_base
            (Some "Missing feature_id") row) st)
  | Some fid =>
      match nonEmpty (cell row defLocale) with
      | None =>
          (Normal (),
           pushFailure W
             (ReportEntryFailure.mk fid defLocale create_base
                (Some ("Missing name for default locale " +:+ dquote +:+
                       defLocale +:+ dquote)) row) st)
      | Some name =>
          match baseStep defLocale fid name (remote st) with
          | (BaseThrew err, r) =>
              baseFailed defLocale row fid err (withRemote W r st)
          | (BaseOk a d n, r) =>
              upsertLocales locales row fid d
                (pushSuccess W (ReportEntrySuccess.mk fid defLocale a d n)
                   (withRemote W r st))
          end
      end
  end.
Proof.
  unfold Sync.processRow, Sync.baseStep.
  destruct (nonEmpty (cell row "feature_id")) as [fid|]; [|done].
  destruct (nonEmpty (cell row defLocale)) as [name|]; [|done].
  destruct (findDocumentByFeatureId _ _) as [[[existing|]|err] r1]; [| |done].
  - by destruct (Sync.upsertLocaleVersion _ _ _ _ _ _) as [[updated|err] r2].
  - by destruct (createBaseDocument _ _ _ _) as [[created|err] r2].
Qed.

(** Step 1 never answers with the locale action. *)
Lemma baseStep_action defLocale fid name r a d n r' :
  baseStep defLocale fid name r = (BaseOk a d n, r') → isBaseAction a = true.
Proof.
  unfold Sync.baseStep.
  destruct (findDocumentByFeatureId _ _) as [[[existing|]|err] r1]; [| |done].
  - destruct (Sync.upsertLocaleVersion _ _ _ _ _ _) as [[updated|err] r2];
      by intros [= <- _ _ _].
  - destruct (createBaseDocument _ _ _ _) as [[created|err] r2];
      by intros [= <- _ _ _].
Qed.

(** *** The loop over the locale columns *)

(** One iteration, by the cell, the answer of the remote side and the
    result of [formatError]. *)
Lemma upsertLocaleStep_cases row fid d st l :
  upsertLocaleStep row fid d st l =
  match nonEmpty (cell row l) with
  | None => (Normal (), st)
  | Some n =>
      let r := {| world := (client_put d l n (world (remote st))).2;
                  calls := calls (remote st) ++ [PUT_pro_features d l n] |} in
      match (client_put d l n (world (remote st))).1 with
      | Normal localized =>
          (Normal (),
           pushSuccess W
             (ReportEntrySuccess.mk fid l upsert_locale d
                (ProFeature.name localized))
             (withRemote W r st))
      | Throw err =>
          match formatError err with
          | Normal msg =>
              (Normal (),
               pushFailure W
                 (ReportEntryFailure.mk fid l upsert_locale msg row)
                 (withRemote W r st))
          | Throw t => (Throw t, withRemote W r st)
          end
      end
  end.
Proof.
  unfold Sync.upsertLocaleStep, Sync.upsertLocaleVersion.
  destruct (nonEmpty (cell row l)) as [n|]; [|done].
  by destruct (client_put d l n (world (remote st))) as [[localized|err] w].
Qed.

Lemma localeLoop_effect row fid d locales st :
  LocaleLoop row fid d locales st (forOf (upsertLocaleStep row fid d) st locales).
Proof.
  revert st. induction locales as [|l locales IH]; intros st.
  - exists [], [], []. simpl. rewrite !app_nil_r. split_and!; auto.
  - simpl forOf. rewrite upsertLocaleStep_cases.
    unfold LocaleLoop. rewrite filled_cons, localePuts_cons.
    destruct (nonEmpty (cell row l)) as [n|]; [|apply IH].
    destruct (client_put d l n (world (remote st))) as [[localized|err] w];
      cbn [fst snd]; cbv zeta.
    + match goal with |- context [forOf ?f ?s ?ls] =>
        destruct (IH s)
          as (ds & df & sent & Hs & Hf & Hc & Hp & Hd & Ho & Fs & Ff & Ss & Sf
              & Hpre & Hend)
      end.
      eexists (_ :: ds), df, (_ :: sent). simpl in *.
      rewrite Hs, Hf, Hc, Hp, Hd, Ho, <- !app_assoc. simpl.
      split_and!; auto using sublist_skip, sublist_cons.
      * by apply prefix_cons.
      * intros Hn. destruct (Hend Hn) as [-> Hlen]. split; [done|lia].
    + destruct (formatError err) as [msg|t].
      * match goal with |- context [forOf ?f ?s ?ls] =>
          destruct (IH s)
            as (ds & df & sent & Hs & Hf & Hc & Hp & Hd & Ho & Fs & Ff & Ss & Sf
                & Hpre & Hend)
        end.
        exists ds; eexists (_ :: df), (_ :: sent). simpl in *.
        rewrite Hs, Hf, Hc, Hp, Hd, Ho, <- !app_assoc. simpl.
        split_and!; auto using sublist_skip, sublist_cons.
        -- by apply prefix_cons.
        -- intros Hn. destruct (Hend Hn) as [-> Hlen]. split; [done|lia].
      * eexists [], [], [_]. simpl. rewrite !app_nil_r.
        split_and!; auto using sublist_nil_l; [|done].
        apply prefix_cons, prefix_nil.
Qed.

(** The requests of step 1 write the default locale only. *)
Lemma baseStep_calls defLocale fid name r res r' :
  baseStep defLocale fid name r = (res, r') →
  ∃ cs, calls r' = calls r ++ cs ∧
        Forall (fun q => requestLocale q = None ∨
                         requestLocale q = Some defLocale) cs.
Proof.
  unfold Sync.baseStep, Sync.findDocumentByFeatureId, Sync.createBaseDocument,
    Sync.upsertLocaleVersion.
  destruct (client_get fid (world r)) as [[found|err] w1]; simpl.
  - destruct (head (data found)) as [existing|]; simpl.
    + destruct (client_put _ _ _ w1) as [[updated|err] w2];
        intros [= <- <-]; simpl; rewrite <- app_assoc;
        eexists; split; eauto; Forall_each.
    + destruct (client_post _ _ _ w1) as [[created|err] w2];
        intros [= <- <-]; simpl; rewrite <- app_assoc;
        eexists; split; eauto; Forall_each.
  - intros [= <- <-]; simpl. eexists; split; eauto; Forall_each.
Qed.

Lemma filter_locale_successes (ds : list ReportEntrySuccess.t) :
  Forall (fun e => ReportEntrySuccess.action e = upsert_locale) ds →
  List.filter isBaseSuccess ds = [].
Proof.
  induction 1 as [|e ds He _ IH]; [done|].
  simpl. unfold isBaseSuccess at 1. by rewrite He.
Qed.

Lemma filter_locale_failures (df : list ReportEntryFailure.t) :
  Forall (fun f => ReportEntryFailure.action f = upsert_locale) df →
  List.filter isBaseFailure df = [].
Proof.
  induction 1 as [|f df Hf _ IH]; [done|].
  simpl. unfold isBaseFailure at 1. by rewrite Hf.
Qed.

Lemma passesChecks_true defLocale row fid name :
  nonEmpty (cell row "feature_id") = Some fid →
  nonEmpty (cell row defLocale) = Some name →
  passesChecks defLocale row = true.
Proof.
  intros H1 H2. unfold passesChecks. rewrite H1, H2.
  rewrite !bool_decide_eq_true_2; eauto.
Qed.

Lemma passesChecks_false_id defLocale row :
  nonEmpty (cell row "feature_id") = None → passesChecks defLocale row = false.
Proof.
  intros H. unfold passesChecks. rewrite H.
  rewrite bool_decide_eq_false_2; [done|]. by intros [? ?].
Qed.

Lemma passesChecks_false_name defLocale row :
  nonEmpty (cell row defLocale) = None → passesChecks defLocale row = false.
Proof.
  intros H. unfold passesChecks. rewrite H.
  rewrite (bool_decide_eq_false_2 (is_Some None)); [|by intros [? ?]].
  apply andb_false_r.
Qed.

Lemma RowChunks_failure defLocale locales row f :
  ReportEntryFailure.action f = create_base →
  ReportEntryFailure.locale f = defLocale →
  ReportEntryFailure.row f = row →
  RowChunks defLocale locales row ([], [f]).
Proof.
  intros Ha Hl Hr. unfold RowChunks. simpl. split_and!.
  - by left.
  - split; [by Forall_each|]. left. eauto.
  - unfold isBaseFailure. by rewrite Ha.
  - done.
Qed.

Lemma RowSuccesses_base defLocale locales row fid a d n ds :
  nonEmpty (cell row "feature_id") = Some fid →
  isBaseAction a = true →
  Forall (fun e => ReportEntrySuccess.action e = upsert_locale ∧
                   ReportEntrySuccess.featureId e = fid ∧
                   ReportEntrySuccess.documentId e = d) ds →
  ReportEntrySuccess.locale <$> ds `sublist_of` filled row locales →
  RowSuccesses defLocale locales row
    (ReportEntrySuccess.mk fid defLocale a d n :: ds).
Proof. intros Hid Ha Fs Ss. right. eexists _, ds. split_and!; eauto. Qed.

Lemma RowFailures_locales defLocale locales row fid df :
  Forall (fun f => ReportEntryFailure.action f = upsert_locale ∧
                   ReportEntryFailure.featureId f = fid ∧
                   ReportEntryFailure.row f = row) df →
  ReportEntryFailure.locale <$> df `sublist_of` filled row locales →
  RowFailures defLocale locales row df.
Proof.
  intros Ff Sf. split; [eapply Forall_impl; [eassumption|]; simpl; tauto|].
  right. split; [|done]. eapply Forall_impl; [eassumption|]; simpl; tauto.
Qed.

Lemma RowChunks_success defLocale locales row fid name a d n ds df :
  nonEmpty (cell row "feature_id") = Some fid →
  nonEmpty (cell row defLocale) = Some name →
  isBaseAction a = true →
  Forall (fun e => ReportEntrySuccess.action e = upsert_locale ∧
                   ReportEntrySuccess.featureId e = fid ∧
                   ReportEntrySuccess.documentId e = d) ds →
  Forall (fun f => ReportEntryFailure.action f = upsert_locale ∧
                   ReportEntryFailure.featureId f = fid ∧
                   ReportEntryFailure.row f = row) df →
  ReportEntrySuccess.locale <$> ds `sublist_of` filled row locales →
  ReportEntryFailure.locale <$> df `sublist_of` filled row locales →
  RowChunks defLocale locales row
    (ReportEntrySuccess.mk fid defLocale a d n :: ds, df).
Proof.
  intros Hid Hname Ha Fs Ff Ss Sf. unfold RowChunks. simpl. split_and!.
  - by eapply RowSuccesses_base.
  - by eapply RowFailures_locales.
  - unfold isBaseSuccess at 1. simpl. rewrite Ha. simpl.
    rewrite filter_locale_successes, filter_locale_failures
      by (eapply Forall_impl; [eassumption|]; simpl; tauto).
    done.
  - erewrite passesChecks_true by eauto. done.
Qed.

Lemma localePuts_calls defLocale row d locales :
  Forall (fun q => requestLocale q = None ∨ requestLocale q = Some defLocale ∨
                   ∃ l, requestLocale q = Some l ∧ l ∈ filled row locales)
         (localePuts row d locales).
Proof.
  induction locales as [|l ls IH]; [constructor|].
  rewrite localePuts_cons, filled_cons.
  destruct (nonEmpty (cell row l)) as [x|]; [|done].
  constructor.
  - right; right. exists l. split; [done|]. by left.
  - eapply Forall_impl; [apply IH|]. simpl.
    intros q [?|[?|(l' & ? & ?)]]; auto.
    right; right. exists l'. split; [done|]. by right.
Qed.

Lemma Forall_prefix {A : Type} (P : A → Prop) (l k : list A) :
  l `prefix_of` k → Forall P k → Forall P l.
Proof. intros [rest ->] [? _]%Forall_app. done. Qed.

(** The handler of step 1 appends its failure, or lets the exception of
    [formatError] escape. *)
Lemma baseFailed_cases defLocale row fid err st :
  baseFailed defLocale row fid err st =
  match formatError err with
  | Normal msg =>
      (Normal (),
       pushFailure W
         (ReportEntryFailure.mk fid defLocale create_base msg row) st)
  | Throw t => (Throw t, st)
  end.
Proof. done. Qed.

Lemma RowEffect_failure defLocale locales row st st' cs f :
  report st' = report st →
  calls (remote st') = calls (remote st) ++ cs →
  RowCalls defLocale locales row cs →
  ReportEntryFailure.action f = create_base →
  ReportEntryFailure.locale f = defLocale →
  ReportEntryFailure.row f = row →
  RowEffect defLocale locales row st (Normal (), pushFailure W f st').
Proof.
  intros Hrep Hcs Hcalls Ha Hl Hr.
  pose proof (RowChunks_failure defLocale locales row f Ha Hl Hr)
    as Hchunks.
  exists ([], [f]), cs. simpl. rewrite Hrep, app_nil_r.
  destruct Hchunks as (? & ? & ? & ?).
  split_and!; auto. intros _. split; [by split_and!|lia].
Qed.

Lemma RowCalls_nil defLocale locales row : RowCalls defLocale locales row [].
Proof. by split. Qed.

(** Every iteration appends to the report and to the requests, in the
    shape [RowEffect] describes. *)
Lemma processRow_effect defLocale locales st row :
  RowEffect defLocale locales row st (processRow defLocale locales st row).
Proof.
  rewrite processRow_baseStep.
  destruct (nonEmpty (cell row "feature_id")) as [fid|] eqn:Hid.
  2:{ apply RowEffect_failure with []; auto using RowCalls_nil.
      by rewrite app_nil_r. }
  destruct (nonEmpty (cell row defLocale)) as [name|] eqn:Hname.
  2:{ apply RowEffect_failure with []; auto using RowCalls_nil.
      by rewrite app_nil_r. }
  pose proof (passesChecks_true _ _ _ _ Hid Hname) as Hpass.
  destruct (baseStep defLocale fid name (remote st)) as [[a d n|err] r] eqn:Hbase.
  - destruct (baseStep_calls _ _ _ _ _ _ Hbase) as (cs & Hcs & Fcs).
    pose proof (baseStep_action _ _ _ _ _ _ _ _ Hbase) as Ha.
    unfold Sync.upsertLocales, RowEffect.
    match goal with |- context [forOf ?f ?s ?l] =>
      destruct (localeLoop_effect row fid d locales s)
        as (ds & df & sent & Hs & Hf & Hc & Hp & Hd & Ho & Fs & Ff & Ss & Sf
            & Hpre & Hend);
      destruct (forOf f s l) as [[[]|t] st']
    end;
      eexists (_ :: ds, df), (cs ++ sent); simpl in *;
      rewrite Hs, Hf, Hc, Hd, Ho, Hcs, <- !app_assoc; simpl;
      (split_and!;
       [done|done|done|done|done
       |by eapply RowSuccesses_base
       |by eapply RowFailures_locales
       |split;
        [apply Forall_app; split;
         [eapply Forall_impl; [eassumption|]; simpl; tauto
         |eapply Forall_prefix; [eassumption|apply localePuts_calls]]
        |by rewrite Hpass]
       |]).
    + intros _. split; [by eapply RowChunks_success|].
      rewrite Hp. unfold isBaseSuccess at 1. simpl. rewrite Ha. simpl.
      rewrite filter_locale_successes
        by (eapply Forall_impl; [eassumption|]; simpl; tauto).
      done.
    + done.
  - destruct (baseStep_calls _ _ _ _ _ _ Hbase) as (cs & Hcs & Fcs).
    assert (RowCalls defLocale locales row cs) as Hcalls.
    { split; [eapply Forall_impl; [eassumption|]; simpl; tauto|].
      by rewrite Hpass. }
    rewrite baseFailed_cases. destruct (formatError err) as [msg|t].
    + by apply RowEffect_failure with cs.
    + exists ([], []), cs. simpl. rewrite !app_nil_r.
      split_and!; auto; [by left| |done].
      split; [done|]. right. split; [done|]. apply sublist_nil_l.
Qed.

Lemma baseStep_throws defLocale fid name r err r' :
  BaseStepThrows defLocale fid name r err r' ↔
  baseStep defLocale fid name r = (BaseThrew err, r').
Proof.
  unfold Sync.BaseStepThrows, Sync.baseStep.
  destruct (findDocumentByFeatureId fid r) as [[[existing|]|e] r1].
  - destruct (upsertLocaleVersion _ _ _ r1) as [[updated|e] r2] eqn:E; split;
      try (intros [?|[(?&?&?)|(?&?&?&?)]]; simplify_eq; congruence);
      try congruence.
    intros [= <- <-]. right; right. eauto.
  - destruct (createBaseDocument _ _ _ r1) as [[created|e] r2] eqn:E; split;
      try (intros [?|[(?&?&?)|(?&?&?&?)]]; simplify_eq; congruence);
      try congruence.
    intros [= <- <-]. right; left. eauto.
  - split.
    + intros [?|[(?&?&?)|(?&?&?&?)]]; congruence.
    + intros [= <- <-]. by left.
Qed.

(** A failed step 1 goes to the handler, and the row ends. *)
Lemma processRow_base_throws defLocale locales st row fid name err r :
  nonEmpty (cell row "feature_id") = Some fid →
  nonEmpty (cell row defLocale) = Some name →
  BaseStepThrows defLocale fid name (remote st) err r →
  processRow defLocale locales st row =
  match formatError err with
  | Normal msg =>
      (Normal (),
       pushFailure W
         (ReportEntryFailure.mk fid defLocale create_base msg row)
         (withRemote W r st))
  | Throw t => (Throw t, withRemote W r st)
  end.
Proof.
  intros Hid Hname Hthrows. apply baseStep_throws in Hthrows.
  rewrite processRow_baseStep, Hid, Hname, Hthrows. done.
Qed.

(** *** Claims about one row *)

(** C1: a row passes the two presence checks, the lookup finds an existing
    record and the update of the default locale throws.  The handler of
    step 1 runs: when [formatError] returns, the row appends one failure and
    nothing else, so the remaining locales are skipped; the action of that
    failure is [create-base], where the specification asks for
    [update-base]: the handler writes one action for the three calls it
    guards.  When [formatError] throws, no failure is recorded at all. *)
Theorem update_failure_recorded_as_create_base
    defLocale locales st row fid name existing r1 err r2 :
  nonEmpty (cell row "feature_id") = Some fid →
  nonEmpty (cell row defLocale) = Some name →
  findDocumentByFeatureId fid (remote st) = (Normal (Some existing), r1) →
  upsertLocaleVersion (ProFeature.documentId existing) defLocale name r1
    = (Throw err, r2) →
  processRow defLocale locales st row =
  match formatError err with
  | Normal msg =>
      (Normal (),
       pushFailure W
         (ReportEntryFailure.mk fid defLocale create_base msg row)
         (withRemote W r2 st))
  | Throw t => (Throw t, withRemote W r2 st)
  end.
Proof.
  intros Hid Hname Hfind Hput.
  apply processRow_base_throws with name; [done..|].
  right; right. eauto.
Qed.

(** The entries a row appends when step 1 succeeded: the base success, then
    entries of the locale columns. *)
Lemma processRow_base_ok defLocale locales st row fid name a d n r :
  nonEmpty (cell row "feature_id") = Some fid →
  nonEmpty (cell row defLocale) = Some name →
  baseStep defLocale fid name (remote st) = (BaseOk a d n, r) →
  ∃ ds df,
    successes (report (processRow defLocale locales st row).2)
      = successes (report st) ++ ReportEntrySuccess.mk fid defLocale a d n :: ds ∧
    failures (report (processRow defLocale locales st row).2)
      = failures (report st) ++ df ∧
    isBaseAction a = true ∧
    Forall (fun e => ReportEntrySuccess.action e = upsert_locale) ds ∧
    Forall (fun f => ReportEntryFailure.action f = upsert_locale) df.
Proof.
  intros Hid Hname Hbase. rewrite processRow_baseStep, Hid, Hname, Hbase.
  pose proof (baseStep_action _ _ _ _ _ _ _ _ Hbase) as Ha.
  unfold Sync.upsertLocales.
  match goal with |- context [forOf ?f ?s ?l] =>
    destruct (localeLoop_effect row fid d l s)
      as (ds & df & sent & Hs & Hf & _ & _ & _ & _ & Fs & Ff & _);
    destruct (forOf f s l) as [[[]|t] st']
  end;
    simpl in *; rewrite <- app_assoc in Hs; simpl in Hs;
    exists ds, df; (split_and!; [exact Hs|exact Hf|exact Ha|..]);
    eapply Forall_impl; try eassumption; simpl; tauto.
Qed.

(** C3: a row that passes the two presence checks appends exactly one entry
    whose action is [create-base] or [update-base], counting the successes
    and the failures together, and that entry is for the row's feature id
    and the default locale, unless step 1 throws an error that [formatError]
    cannot format: then the exception of [formatError] escapes the handler,
    and the row appends no entry at all. *)
Theorem one_base_entry_per_checked_row defLocale locales st row fid name :
  nonEmpty (cell row "feature_id") = Some fid →
  nonEmpty (cell row defLocale) = Some name →
  (∀ err r t,
     BaseStepThrows defLocale fid name (remote st) err r →
     formatError err = Throw t →
     processRow defLocale locales st row = (Throw t, withRemote W r st)) ∧
  ((∀ err r,
      BaseStepThrows defLocale fid name (remote st) err r →
      ∃ msg, formatError err = Normal msg) →
   ∃ ds df,
     successes (report (processRow defLocale locales st row).2)
       = successes (report st) ++ ds ∧
     failures (report (processRow defLocale locales st row).2)
       = failures (report st) ++ df ∧
     length (List.filter isBaseSuccess ds)
       + length (List.filter isBaseFailure df) = 1 ∧
     Forall (fun e => isBaseSuccess e = true →
                      ReportEntrySuccess.featureId e = fid ∧
                      ReportEntrySuccess.locale e = defLocale) ds ∧
     Forall (fun f => isBaseFailure f = true →
                      ReportEntryFailure.featureId f = fid ∧
                      ReportEntryFailure.locale f = defLocale) df).
Proof.
  intros Hid Hname. split.
  - intros err r t Hthrows Hfmt.
    by rewrite (processRow_base_throws _ locales _ _ _ _ _ _ Hid Hname Hthrows),
      Hfmt.
  - intros Hformats.
    destruct (baseStep defLocale fid name (remote st)) as [[a d n|err] r] eqn:Hbase.
    + destruct (processRow_base_ok _ locales _ _ _ _ _ _ _ _ Hid Hname Hbase)
        as (ds & df & Hs & Hf & Ha & Fs & Ff).
      eexists (_ :: ds), df. split_and!; [exact Hs|exact Hf|..].
      * simpl. unfold isBaseSuccess at 1. simpl. rewrite Ha. simpl.
        by rewrite filter_locale_successes, filter_locale_failures.
      * constructor; [done|].
        eapply Forall_impl; [exact Fs|]. simpl.
        intros e He. unfold isBaseSuccess. by rewrite He.
      * eapply Forall_impl; [exact Ff|]. simpl.
        intros f Hf'. unfold isBaseFailure. by rewrite Hf'.
    + apply baseStep_throws in Hbase.
      rewrite (processRow_base_throws _ locales _ _ _ _ _ _ Hid Hname Hbase).
      destruct (Hformats _ _ Hbase) as (msg & ->).
      eexists [], [_]. simpl. rewrite app_nil_r. split_and!; try done.
      by Forall_each.
Qed.

(** C4: when step 1 of a row fails (the lookup, the creation or the update
    of the default locale throws), the row sends no further request and
    appends no [upsert-locale] entry.  When [formatError] returns, the row
    appends its one failure entry and the loop goes on with the next row;
    when [formatError] throws, its exception escapes the handler and ends
    the loop: the rows that follow are not processed. *)
Theorem base_failure_skips_locales defLocale locales st row fid name err r rest :
  nonEmpty (cell row "feature_id") = Some fid →
  nonEmpty (cell row defLocale) = Some name →
  BaseStepThrows defLocale fid name (remote st) err r →
  successes (report (processRow defLocale locales st row).2)
    = successes (report st) ∧
  remote (processRow defLocale locales st row).2 = r ∧
  processedRows (report (processRow defLocale locales st row).2)
    = processedRows (report st) ∧
  match formatError err with
  | Normal msg =>
      failures (report (processRow defLocale locales st row).2)
        = failures (report st) ++
          [ReportEntryFailure.mk fid defLocale create_base msg row] ∧
      processRows defLocale locales st (row :: rest)
        = processRows defLocale locales
            (processRow defLocale locales st row).2 rest
  | Throw t =>
      failures (report (processRow defLocale locales st row).2)
        = failures (report st) ∧
      processRows defLocale locales st (row :: rest)
        = (Throw t, withRemote W r st)
  end.
Proof.
  intros Hid Hname Hthrows.
  pose proof (processRow_base_throws _ locales _ _ _ _ _ _ Hid Hname Hthrows)
    as Heq.
  unfold Sync.processRows. simpl forOf. rewrite Heq.
  by destruct (formatError err) as [msg|t].
Qed.

(** C7: a row whose [feature_id] is empty appends exactly one failure, with
    action [create-base] and error "Missing feature_id"; it sends no request
    and is not counted in [processedRows]. *)
Theorem missing_feature_id_recorded defLocale locales st row :
  nonEmpty (cell row "feature_id") = None →
  (processRow defLocale locales st row).1 = Normal () ∧
  successes (report (processRow defLocale locales st row).2)
    = successes (report st) ∧
  failures (report (processRow defLocale locales st row).2)
    = failures (report st) ++
      [ReportEntryFailure.mk "" defLocale create_base
         (Some "Missing feature_id") row] ∧
  remote (processRow defLocale locales st row).2 = remote st ∧
  processedRows (report (processRow defLocale locales st row).2)
    = processedRows (report st).
Proof.
  intros Hid. unfold Sync.processRow. rewrite Hid. done.
Qed.

(** Columns 2..N of an object's keys differ from column 1. *)
Lemma additional_locale_not_default (headers : list string) l :
  NoDup headers → l ∈ drop 2 headers → default "" (headers !! 1) ≠ l.
Proof.
  destruct headers as [|a [|b rest]]; simpl.
  - intros _ Hl. by apply elem_of_nil in Hl.
  - intros _ Hl. by apply elem_of_nil in Hl.
  - intros Hnd Hl ->.
    apply NoDup_cons in Hnd as [_ Hnd]. apply NoDup_cons in Hnd as [Hb _].
    done.
Qed.

Lemma empty_cell_not_filled row locales l :
  nonEmpty (cell row l) = None → l ∉ filled row locales.
Proof.
  intros Hcell Hin. apply list_elem_of_filter in Hin as [[x Hx] _]. congruence.
Qed.

(** C5: a row sends no request and appends no entry, success or failure,
    for an additional locale column whose cell is empty.  The columns are
    the keys of a record, hence distinct. *)
Theorem empty_locale_cell_is_skipped (headers : list string) st row l :
  NoDup headers →
  l ∈ drop 2 headers →
  nonEmpty (cell row l) = None →
  ∃ ds df cs,
    successes (report (processRow (default "" (headers !! 1)) (drop 2 headers) st row).2)
      = successes (report st) ++ ds ∧
    failures (report (processRow (default "" (headers !! 1)) (drop 2 headers) st row).2)
      = failures (report st) ++ df ∧
    calls (remote (processRow (default "" (headers !! 1)) (drop 2 headers) st row).2)
      = calls (remote st) ++ cs ∧
    Forall (fun e => ReportEntrySuccess.locale e ≠ l) ds ∧
    Forall (fun f => ReportEntryFailure.locale f ≠ l) df ∧
    Forall (fun q => requestLocale q ≠ Some l) cs.
Proof.
  intros Hnd Hl Hcell.
  pose proof (additional_locale_not_default _ _ Hnd Hl) as Hdef.
  pose proof (empty_cell_not_filled _ (drop 2 headers) _ Hcell) as Hfilled.
  destruct (processRow_effect (default "" (headers !! 1)) (drop 2 headers) st row)
    as ([ds df] & cs & Hs & Hf & Hc & _ & _ & HS & HF & (HC & _) & _).
  simpl in *. exists ds, df, cs. split_and!; auto.
  - destruct HS as [->|(base & locs & -> & _ & Hbase & _ & _ & Hsub)];
      [constructor|].
    constructor; [congruence|].
    apply Forall_forall. intros e He Heq. apply Hfilled.
    apply (sublist_subseteq _ _ Hsub). rewrite <- Heq.
    by apply list_elem_of_fmap_2.
  - destruct HF as [_ [(f & -> & _ & Hloc)|[_ Hsub]]].
    + constructor; [congruence|constructor].
    + apply Forall_forall. intros f Hf' Heq. apply Hfilled.
      apply (sublist_subseteq _ _ Hsub). rewrite <- Heq.
      by apply list_elem_of_fmap_2.
  - eapply Forall_impl; [exact HC|]. simpl.
    intros q [Hq|[Hq|(l' & Hq & Hin)]]; rewrite Hq; [done|congruence|].
    intros [= ->]. done.
Qed.

(** *** The loop over the records *)

Lemma processRows_effect defLocale locales records st st' :
  processRows defLocale locales st records = (Normal (), st') →
  ∃ chunks,
    Forall2 (RowChunks defLocale locales) records chunks ∧
    successes (report st') = successes (report st) ++ concat chunks.*1 ∧
    failures (report st') = failures (report st) ++ concat chunks.*2 ∧
    processedRows (report st')
      = processedRows (report st)
        + length (List.filter isBaseSuccess (concat chunks.*1)) ∧
    defaultLocale (report st') = defaultLocale (report st) ∧
    otherLocales (report st') = otherLocales (report st).
Proof.
  revert st. induction records as [|row records IH]; intros st.
  - intros [= <-]. exists []. simpl. rewrite !app_nil_r. split_and!; auto.
  - unfold Sync.processRows in *.
    intros (st1 & Hrow & Hrest)%forOf_normal_cons.
    destruct (processRow_effect defLocale locales st row)
      as (c & cs & Hs & Hf & _ & Hd & Ho & _ & _ & _ & Hend).
    rewrite Hrow in Hs, Hf, Hd, Ho, Hend. simpl in *.
    destruct (Hend eq_refl) as [Hchunks Hp].
    destruct (IH st1 Hrest) as (chunks & Hall & Hs' & Hf' & Hp' & Hd' & Ho').
    exists (c :: chunks). rewrite !fmap_cons, !concat_cons.
    rewrite Hs', Hf', Hp', Hd', Ho', Hs, Hf, Hp, Hd, Ho.
    rewrite List.filter_app, length_app, <- !app_assoc.
    split_and!; auto. lia.
Qed.

(** One base entry per record, in the successes or in the failures. *)
Lemma chunks_base_entries defLocale locales records chunks :
  Forall2 (RowChunks defLocale locales) records chunks →
  length (List.filter isBaseSuccess (concat chunks.*1))
    + length (List.filter isBaseFailure (concat chunks.*2)) = length records.
Proof.
  induction 1 as [|row c records chunks (_ & _ & Hone & _) _ IH]; [done|].
  rewrite !fmap_cons, !concat_cons, !List.filter_app, !length_app.
  simpl length. lia.
Qed.

Lemma filter_remote_base_failures defLocale row (df : list ReportEntryFailure.t) :
  Forall (fun f => ReportEntryFailure.row f = row) df →
  List.filter (isRemoteBaseFailure defLocale) df =
  if passesChecks defLocale row then List.filter isBaseFailure df else [].
Proof.
  induction 1 as [|f df Hf _ IH]; [by destruct (passesChecks _ _)|].
  simpl. unfold isRemoteBaseFailure at 1. rewrite Hf, IH.
  destruct (passesChecks defLocale row), (isBaseFailure f); done.
Qed.

(** The rows that pass the checks end in a base success or in a base
    failure that carries such a row. *)
Lemma chunks_checked_rows defLocale locales records chunks :
  Forall2 (RowChunks defLocale locales) records chunks →
  length (List.filter isBaseSuccess (concat chunks.*1))
    + length (List.filter (isRemoteBaseFailure defLocale) (concat chunks.*2))
  = length (List.filter (passesChecks defLocale) records).
Proof.
  induction 1 as [|row [ds df] records chunks (_ & HF & Hone & Hno) _ IH];
    [done|].
  rewrite !fmap_cons, !concat_cons, !List.filter_app, !length_app.
  cbn [fst snd List.filter] in *.
  rewrite (filter_remote_base_failures defLocale row df) by apply HF.
  destruct (passesChecks defLocale row); cbn [length].
  - lia.
  - rewrite Hno by done. cbn [List.filter length]. lia.
Qed.

(** *** Claims about the whole run *)

(** The loop of [processCsv] has run over all the records when [stateAt]
    answers for their number. *)
Lemma stateAt_all records r st :
  stateAt records r (length records) = Some st ↔
  processRows (defaultLocaleOf records) (otherLocalesOf records)
    {| remote := r;
       report := initialReport (defaultLocaleOf records)
                   (otherLocalesOf records) |}
    records = (Normal (), st).
Proof.
  unfold Vocabulary.stateAt. rewrite firstn_all.
  destruct (processRows _ _ _ _) as [[[]|t] st']; split; congruence.
Qed.

(** A report is written exactly when the CSV has records and an accepted
    header, no exception escapes the loop over the records, and the file
    system takes the report; it is then the report of that loop. *)
Lemma processCsv_report columns records disk r rep r' :
  processCsv (Parsed columns records) disk r = (ReportWritten rep, r') ↔
  records ≠ [] ∧
  headersRejected (Object_keys (default [] (head records))) = false ∧
  ∃ st,
    stateAt records r (length records) = Some st ∧
    writeReport disk (report st) = Normal () ∧
    rep = report st ∧ r' = remote st.
Proof.
  setoid_rewrite stateAt_all.
  unfold Sync.processCsv.
  destruct records as [|first rest].
  { split; [discriminate|]. by intros [? _]. }
  unfold defaultLocaleOf, otherLocalesOf.
  change (default [] (head (first :: rest))) with first.
  destruct (headersRejected (Object_keys first)).
  { split; [discriminate|]. intros (_ & ? & _). discriminate. }
  destruct (processRows _ _ _ _) as [[[]|t] st'].
  - destruct (writeReport disk (report st')) as [[]|t] eqn:Hwrite; split.
    + intros [= <- <-]. split_and!; [done..|]. by exists st'.
    + by intros (_ & _ & st & [= <-] & _ & -> & ->).
    + discriminate.
    + intros (_ & _ & st & [= <-] & ? & _). congruence.
  - split; [discriminate|]. by intros (_ & _ & st & [=] & _).
Qed.

Lemma stateAt_effect records r i st :
  stateAt records r i = Some st →
  ∃ chunks,
    Forall2 (RowChunks (defaultLocaleOf records) (otherLocalesOf records))
      (take i records) chunks ∧
    successes (report st) = concat chunks.*1 ∧
    failures (report st) = concat chunks.*2 ∧
    processedRows (report st)
      = length (List.filter isBaseSuccess (concat chunks.*1)) ∧
    defaultLocale (report st) = defaultLocaleOf records ∧
    otherLocales (report st) = otherLocalesOf records.
Proof.
  unfold Vocabulary.stateAt.
  destruct (processRows _ _ _ _) as [[[]|t] st'] eqn:Hrows; [|done].
  intros [= <-].
  destruct (processRows_effect _ _ _ _ _ Hrows)
    as (chunks & Hall & Hs & Hf & Hp & Hd & Ho).
  exists chunks. by split_and!.
Qed.

(** What a written report is made of. *)
Lemma written_report columns records disk r rep r' :
  processCsv (Parsed columns records) disk r = (ReportWritten rep, r') →
  ∃ chunks,
    Forall2 (RowChunks (defaultLocaleOf records) (otherLocalesOf records))
      records chunks ∧
    successes rep = concat chunks.*1 ∧
    failures rep = concat chunks.*2 ∧
    processedRows rep
      = length (List.filter isBaseSuccess (concat chunks.*1)) ∧
    defaultLocale rep = defaultLocaleOf records ∧
    otherLocales rep = otherLocalesOf records.
Proof.
  intros (_ & _ & st & Hst & _ & -> & _)%processCsv_report.
  destruct (stateAt_effect _ _ _ _ Hst) as (chunks & Hall & H).
  rewrite firstn_all in Hall. by exists chunks.
Qed.

(** C2, amended: [processedRows] is the number of rows whose base step
    succeeded, that is the number of [create-base] and [update-base]
    successes.  The rows that passed the two presence checks are these and
    the rows whose base step failed, each of which left a base failure
    carrying the row; locale failures count for nothing. *)
Theorem processedRows_counts_completed_rows columns records disk r rep r' :
  processCsv (Parsed columns records) disk r = (ReportWritten rep, r') →
  processedRows rep = length (List.filter isBaseSuccess (successes rep)) ∧
  processedRows rep
    + length (List.filter (isRemoteBaseFailure (defaultLocale rep)) (failures rep))
  = length (List.filter (passesChecks (defaultLocale rep)) records).
Proof.
  intros (chunks & Hall & -> & -> & -> & -> & _)%written_report.
  split; [done|].
  by apply chunks_checked_rows with (otherLocalesOf records).
Qed.

(** C8: the successes and the failures of the report are the contributions
    of the records, in the order of the records; within a record the base
    entry comes first and the locale entries follow in the order of the
    columns. *)
Theorem report_follows_csv_order columns records disk r rep r' :
  processCsv (Parsed columns records) disk r = (ReportWritten rep, r') →
  defaultLocale rep = defaultLocaleOf records ∧
  otherLocales rep = otherLocalesOf records ∧
  ∃ chunks,
    Forall2 (fun row c =>
               RowSuccesses (defaultLocale rep) (otherLocales rep) row c.1 ∧
               RowFailures (defaultLocale rep) (otherLocales rep) row c.2)
      records chunks ∧
    successes rep = concat chunks.*1 ∧
    failures rep = concat chunks.*2.
Proof.
  intros (chunks & Hall & -> & -> & _ & -> & ->)%written_report.
  split_and!; [done..|].
  exists chunks. split_and!; [|done..].
  eapply Forall2_impl; [exact Hall|]. by intros row c (? & ? & _).
Qed.

Lemma formatError_kinds err :
  formatError err =
  match errorKind err with
  | StructuredBody e => structuredMessage e
  | ResponseOnly data => Normal (JSON_stringify data)
  | PlainError message => Normal (Some message)
  | OtherValue => Normal (JSON_stringify err)
  end.
Proof.
  unfold Sync.formatError, errorKind, Vocabulary.structuredMessage.
  destruct (truthy (getProp err "response")).
  - by destruct (truthy (getProp (getProp (getProp err "response") "data") "error")).
  - by destruct err.
Qed.

(** An exception that escapes the body of the loop over the records makes
    [processCsv] reject, with the requests sent so far; [main] then ends the
    process with code 1, and no report is written. *)
Lemma escaping_exception_rejects columns records disk r i st row t st' :
  headersRejected (Object_keys (default [] (head records))) = false →
  stateAt records r i = Some st →
  records !! i = Some row →
  processRow (defaultLocaleOf records) (otherLocalesOf records) st row
    = (Throw t, st') →
  processCsv (Parsed columns records) disk r = (Rejected t, remote st').
Proof.
  intros Hhead Hst Hrow Hthrow.
  unfold Sync.processCsv, Vocabulary.stateAt, defaultLocaleOf, otherLocalesOf in *.
  destruct records as [|first rest]; [done|].
  change (default [] (head (first :: rest))) with first in *.
  rewrite Hhead. cbv zeta.
  generalize dependent (default "" (Object_keys first !! 1)).
  generalize dependent (drop 2 (Object_keys first)).
  intros locales defLocale Hst Hthrow.
  rewrite <- (take_drop_middle _ _ _ Hrow).
  unfold Sync.processRows in *. rewrite forOf_app.
  destruct (forOf _ _ (take i (first :: rest))) as [[[]|t'] st1]; [|done].
  injection Hst as ->. simpl forOf. by rewrite Hthrow.
Qed.

Lemma upsertLocaleStep_throws row fid d st l n err r :
  nonEmpty (cell row l) = Some n →
  upsertLocaleVersion d l n (remote st) = (Throw err, r) →
  upsertLocaleStep row fid d st l =
  match formatError err with
  | Normal msg =>
      (Normal (),
       pushFailure W
         (ReportEntryFailure.mk fid l upsert_locale msg row)
         (withRemote W r st))
  | Throw t => (Throw t, withRemote W r st)
  end.
Proof.
  intros Hcell Hput. unfold Sync.upsertLocaleStep. by rewrite Hcell, Hput.
Qed.

(** C9: an error thrown by a lookup, a creation or an update is caught
    where the call is made and handed to [formatError], which answers with
    the name and message of the structured error body of the response when
    there is one, the JSON of the response data when the response has none,
    the message of an Error that has no response, and the JSON of any other
    value.  When [formatError] returns, the error is recorded as one failure
    entry and the run goes on: after a failed base step with the next
    record, after a failed locale update with the next locale.  But the
    template literal of the structured body can throw, and [formatError] is
    called in the handlers: its exception escapes the handler, nothing is
    recorded, the loop ends, [processCsv] rejects and the process ends with
    code 1, without a report.  A run that no exception escapes, and whose
    report the file system takes, writes one base entry per record. *)
Theorem remote_errors_are_recorded :
  (∀ err,
     formatError err =
     match errorKind err with
     | StructuredBody e => structuredMessage e
     | ResponseOnly data => Normal (JSON_stringify data)
     | PlainError message => Normal (Some message)
     | OtherValue => Normal (JSON_stringify err)
     end) ∧
  (∀ defLocale locales st row fid name err r,
     nonEmpty (cell row "feature_id") = Some fid →
     nonEmpty (cell row defLocale) = Some name →
     BaseStepThrows defLocale fid name (remote st) err r →
     processRow defLocale locales st row =
     match formatError err with
     | Normal msg =>
         (Normal (),
          pushFailure W
            (ReportEntryFailure.mk fid defLocale create_base msg row)
            (withRemote W r st))
     | Throw t => (Throw t, withRemote W r st)
     end) ∧
  (∀ row fid d st l n err r,
     nonEmpty (cell row l) = Some n →
     upsertLocaleVersion d l n (remote st) = (Throw err, r) →
     upsertLocaleStep row fid d st l =
     match formatError err with
     | Normal msg =>
         (Normal (),
          pushFailure W
            (ReportEntryFailure.mk fid l upsert_locale msg row)
            (withRemote W r st))
     | Throw t => (Throw t, withRemote W r st)
     end) ∧
  (∀ columns records disk r i st row t st' p fs,
     headersRejected (Object_keys (default [] (head records))) = false →
     stateAt records r i = Some st →
     records !! i = Some row →
     processRow (defaultLocaleOf records) (otherLocalesOf records) st row
       = (Throw t, st') →
     processCsv (Parsed columns records) disk r = (Rejected t, remote st') ∧
     (p ≠ "" → fs p = Parsed columns records →
      main (Some p) fs disk r = (1%Z, remote st'))) ∧
  (∀ columns records disk r st,
     records ≠ [] →
     headersRejected (Object_keys (default [] (head records))) = false →
     stateAt records r (length records) = Some st →
     writeReport disk (report st) = Normal () →
     processCsv (Parsed columns records) disk r
       = (ReportWritten (report st), remote st) ∧
     length (List.filter isBaseSuccess (successes (report st)))
       + length (List.filter isBaseFailure (failures (report st)))
     = length records).
Proof.
  split_and!.
  - apply formatError_kinds.
  - apply processRow_base_throws.
  - apply upsertLocaleStep_throws.
  - intros columns records disk r i st row t st' p fs Hhead Hst Hrow Hthrow.
    pose proof (escaping_exception_rejects columns _ disk _ _ _ _ _ _
                  Hhead Hst Hrow Hthrow) as Hrej.
    split; [done|]. intros Hp Hfs.
    unfold Sync.main, nonEmpty. rewrite decide_False by done.
    by rewrite Hfs, Hrej.
  - intros columns records disk r st Hne Hhead Hst Hwrite.
    split.
    + apply processCsv_report. split_and!; [done..|]. by exists st.
    + destruct (stateAt_effect _ _ _ _ Hst) as (chunks & Hall & -> & -> & _).
      rewrite firstn_all in Hall. by eapply chunks_base_entries.
Qed.

(** No run records a failure whose action is [update-base]: the handler of
    step 1 is the only place that records a failed update of the default
    locale, and it writes [create-base]. *)
Lemma failures_never_update_base columns records disk r rep r' :
  processCsv (Parsed columns records) disk r = (ReportWritten rep, r') →
  Forall (fun f => ReportEntryFailure.action f ≠ update_base) (failures rep).
Proof.
  intros (chunks & Hall & _ & -> & _)%written_report.
  clear -Hall. induction Hall as [|row c rows chunks (_ & HF & _) _ IH]; [done|].
  rewrite fmap_cons, concat_cons. apply Forall_app. split; [|exact IH].
  destruct HF as [_ [(f & -> & Hf & _)|[Hall' _]]].
  - constructor; [congruence|constructor].
  - eapply Forall_impl; [exact Hall'|]. simpl. congruence.
Qed.

(** C10: a CSV that parses to no record makes [processCsv] return before it
    validates the header, whatever the header line is: no request is sent,
    no report is written, and the process ends with exit code 0. *)
Theorem empty_csv_returns_early columns disk r :
  processCsv (Parsed columns []) disk r = (ReturnedEarly, r) ∧
  ∀ p fs, p ≠ "" → fs p = Parsed columns [] → main (Some p) fs disk r = (0%Z, r).
Proof.
  split; [done|]. intros p fs Hp Hfs.
  unfold Sync.main, nonEmpty. rewrite decide_False by done.
  by rewrite Hfs.
Qed.

(** *** The states the loop goes through *)

Lemma stateAt_S records r i row :
  records !! i = Some row →
  stateAt records r (S i) =
  match stateAt records r i with
  | Some st =>
      match processRow (defaultLocaleOf records) (otherLocalesOf records)
              st row with
      | (Normal _, st') => Some st'
      | (Throw _, _) => None
      end
  | None => None
  end.
Proof.
  intros Hrow. unfold Vocabulary.stateAt, Sync.processRows.
  rewrite (take_S_r _ _ _ Hrow), forOf_app.
  destruct (forOf _ _ (take i records)) as [[[]|t] st]; [|done].
  simpl. by destruct (processRow _ _ st row) as [[[]|t] st'].
Qed.

(** The loop reaches a record only through the records before it. *)
Lemma stateAt_prefix records r i j sj :
  i ≤ j → stateAt records r j = Some sj → ∃ si, stateAt records r i = Some si.
Proof.
  intros Hij. unfold Vocabulary.stateAt, Sync.processRows.
  rewrite <- (take_drop i (take j records)), take_take.
  replace (i `min` j) with i by lia. rewrite forOf_app.
  destruct (forOf _ _ (take i records)) as [[[]|t] st]; [eauto|done].
Qed.

Lemma stateAt_split records r i j si :
  i ≤ j →
  stateAt records r i = Some si →
  stateAt records r j =
  match processRows (defaultLocaleOf records) (otherLocalesOf records) si
          (drop i (take j records)) with
  | (Normal _, st) => Some st
  | (Throw _, _) => None
  end.
Proof.
  intros Hij Hsi.
  assert (take j records = take i records ++ drop i (take j records)) as Hsplit.
  { rewrite <- (take_drop i (take j records)) at 1. rewrite take_take.
    by replace (i `min` j) with i by lia. }
  unfold Vocabulary.stateAt, Sync.processRows in *.
  rewrite Hsplit at 1. rewrite forOf_app.
  destruct (forOf _ _ (take i records)) as [[[]|t] st]; [|done].
  by injection Hsi as ->.
Qed.

(** A record that the loop has passed was processed to its end. *)
Lemma stateAt_passed records r i j row si sj :
  i < j →
  records !! i = Some row →
  stateAt records r i = Some si →
  stateAt records r j = Some sj →
  ∃ si',
    processRow (defaultLocaleOf records) (otherLocalesOf records) si row
      = (Normal (), si') ∧
    stateAt records r (S i) = Some si'.
Proof.
  intros Hij Hrow Hsi Hsj.
  destruct (stateAt_prefix records r (S i) j sj) as (si' & Hsi'); [lia|done|].
  exists si'. split; [|done].
  rewrite (stateAt_S _ _ _ _ Hrow), Hsi in Hsi'.
  destruct (processRow _ _ si row) as [[[]|t] st']; congruence.
Qed.

(** *** Running the same CSV twice *)

Section Idempotence.

Hypothesis laws : DiscoveryLaws client_get client_post client_put.

Local Abbreviation Discoverable := (Discoverable client_get).

Lemma find_keeps f g r :
  Discoverable (world r) f →
  Discoverable (world (findDocumentByFeatureId g r).2) f.
Proof.
  intros HD. apply (get_keeps _ _ _ laws f g) in HD.
  unfold Sync.findDocumentByFeatureId.
  by destruct (client_get g (world r)) as [[res|err] w].
Qed.

Lemma create_keeps f g n l r :
  Discoverable (world r) f →
  Discoverable (world (createBaseDocument g n l r).2) f.
Proof.
  intros HD. apply (post_keeps _ _ _ laws f g n l) in HD.
  unfold Sync.createBaseDocument.
  by destruct (client_post g n l (world r)) as [res w].
Qed.

Lemma upsert_keeps f d l n r :
  Discoverable (world r) f →
  Discoverable (world (upsertLocaleVersion d l n r).2) f.
Proof.
  intros HD. apply (put_keeps _ _ _ laws f d l n) in HD.
  unfold Sync.upsertLocaleVersion.
  by destruct (client_put d l n (world r)) as [res w].
Qed.

Lemma baseStep_keeps f defLocale fid name r :
  Discoverable (world r) f →
  Discoverable (world (baseStep defLocale fid name r).2) f.
Proof.
  intros HD. apply (find_keeps f fid) in HD.
  unfold Sync.baseStep.
  destruct (findDocumentByFeatureId fid r) as [[[existing|]|err] r1];
    simpl in HD; [| |done].
  - apply (upsert_keeps f (ProFeature.documentId existing) defLocale name)
      in HD.
    by destruct (upsertLocaleVersion _ _ _ r1) as [[updated|err] r2].
  - apply (create_keeps f fid name defLocale) in HD.
    by destruct (createBaseDocument _ _ _ r1) as [[created|err] r2].
Qed.

Lemma localeLoop_keeps f row fid d locales st :
  Discoverable (world (remote st)) f →
  Discoverable
    (world (remote (forOf (upsertLocaleStep row fid d) st locales).2)) f.
Proof.
  revert st. induction locales as [|l locales IH]; intros st HD; [done|].
  simpl forOf. rewrite upsertLocaleStep_cases.
  destruct (nonEmpty (cell row l)) as [n|]; [|by apply IH].
  apply (put_keeps _ _ _ laws f d l n) in HD.
  destruct (client_put d l n (world (remote st))) as [[v|err] w];
    cbn [fst snd] in *; cbv zeta; [by apply IH|].
  destruct (formatError err) as [msg|t]; [by apply IH|done].
Qed.

Lemma processRow_keeps f defLocale locales st row :
  Discoverable (world (remote st)) f →
  Discoverable (world (remote (processRow defLocale locales st row).2)) f.
Proof.
  intros HD. rewrite processRow_baseStep.
  destruct (nonEmpty (cell row "feature_id")) as [fid|]; [|done].
  destruct (nonEmpty (cell row defLocale)) as [name|]; [|done].
  apply (baseStep_keeps f defLocale fid name) in HD.
  destruct (baseStep defLocale fid name (remote st)) as [[a d n|err] r].
  - unfold Sync.upsertLocales.
    match goal with |- context [forOf ?g ?s ?l] =>
      pose proof (localeLoop_keeps f row fid d l s HD) as HD';
      by destruct (forOf g s l) as [[[]|t] st']
    end.
  - rewrite baseFailed_cases. by destruct (formatError err).
Qed.

Lemma processRows_keeps f defLocale locales records st :
  Discoverable (world (remote st)) f →
  Discoverable (world (remote (processRows defLocale locales st records).2)) f.
Proof.
  revert st. induction records as [|row records IH]; intros st HD; [done|].
  unfold Sync.processRows in *. simpl forOf.
  apply (processRow_keeps f defLocale locales st row) in HD.
  destruct (processRow defLocale locales st row) as [[[]|t] st1];
    [by apply IH|done].
Qed.

(** A base step that succeeds leaves the record discoverable. *)
Lemma baseStep_ok_discoverable defLocale fid name r a d n r' :
  baseStep defLocale fid name r = (BaseOk a d n, r') →
  Discoverable (world r') fid.
Proof.
  unfold Sync.baseStep, Sync.findDocumentByFeatureId.
  destruct (client_get fid (world r)) as [[[docs m]|err] w] eqn:Hget;
    [|done].
  destruct docs as [|existing docs]; simpl.
  - unfold Sync.createBaseDocument. simpl.
    destruct (client_post fid name defLocale w) as [[created|err] w2] eqn:Hpost;
      [|done].
    intros [= <- <- <- <-]; simpl.
    eapply created_discoverable; eauto.
  - assert (Discoverable w fid) as HD.
    { replace w with (client_get fid (world r)).2 by by rewrite Hget.
      apply (get_keeps _ _ _ laws). unfold Vocabulary.Discoverable. eauto. }
    apply (put_keeps _ _ _ laws fid (ProFeature.documentId existing)
             defLocale name) in HD.
    unfold Sync.upsertLocaleVersion. simpl in *.
    destruct (client_put _ _ _ w) as [[updated|err] w2]; [|done].
    by intros [= <- <- <- <-].
Qed.


(** A row that appended a success has passed the checks, and its record
    is discoverable afterwards. *)
Lemma processRow_success_discoverable defLocale locales st row e ds :
  successes (report (processRow defLocale locales st row).2)
    = successes (report st) ++ e :: ds →
  ∃ fid name,
    nonEmpty (cell row "feature_id") = Some fid ∧
    nonEmpty (cell row defLocale) = Some name ∧
    Discoverable (world (remote (processRow defLocale locales st row).2)) fid.
Proof.
  assert (∀ l : list ReportEntrySuccess.t, l = l ++ e :: ds → False) as Hno.
  { intros l H. apply (f_equal length) in H.
    rewrite length_app in H. simpl in H. lia. }
  rewrite processRow_baseStep.
  destruct (nonEmpty (cell row "feature_id")) as [fid|];
    [|by intros ?%Hno].
  destruct (nonEmpty (cell row defLocale)) as [name|];
    [|by intros ?%Hno].
  destruct (baseStep defLocale fid name (remote st)) as [[a d n|err] r] eqn:Hbase.
  - intros _. exists fid, name. split_and!; [done..|].
    apply baseStep_ok_discoverable in Hbase.
    unfold Sync.upsertLocales.
    match goal with |- context [forOf ?g ?s ?l] =>
      pose proof (localeLoop_keeps fid row fid d l s Hbase) as HD';
      by destruct (forOf g s l) as [[[]|t] st']
    end.
  - rewrite baseFailed_cases. destruct (formatError err); by intros ?%Hno.
Qed.

Lemma stateAt_later_keeps f records r i j si sj :
  i ≤ j →
  stateAt records r i = Some si →
  stateAt records r j = Some sj →
  Discoverable (world (remote si)) f →
  Discoverable (world (remote sj)) f.
Proof.
  intros Hij Hsi Hsj HD. rewrite (stateAt_split _ _ _ _ _ Hij Hsi) in Hsj.
  apply (processRows_keeps f (defaultLocaleOf records) (otherLocalesOf records)
           (drop i (take j records))) in HD.
  destruct (processRows _ _ si _) as [[[]|t] st]; [|done].
  by injection Hsj as <-.
Qed.

(** A row whose record the lookup finds: the row sends the lookup, the
    update of the default locale of the document found, and then updates of
    its filled locale columns; it appends no [create-base] success, and when
    the update of the default locale succeeds, its base entry is an
    [update-base] success. *)
Lemma processRow_on_existing defLocale locales st row fid name existing r1 :
  nonEmpty (cell row "feature_id") = Some fid →
  nonEmpty (cell row defLocale) = Some name →
  findDocumentByFeatureId fid (remote st) = (Normal (Some existing), r1) →
  (∃ sent,
     calls (remote (processRow defLocale locales st row).2)
       = calls (remote st) ++
         GET_pro_features fid ::
         PUT_pro_features (ProFeature.documentId existing) defLocale name ::
         sent ∧
     sent `prefix_of` localePuts row (ProFeature.documentId existing) locales) ∧
  (∃ ds,
     successes (report (processRow defLocale locales st row).2)
       = successes (report st) ++ ds ∧
     Forall (fun e => ReportEntrySuccess.action e ≠ create_base) ds) ∧
  (∀ updated r2,
     upsertLocaleVersion (ProFeature.documentId existing) defLocale name r1
       = (Normal updated, r2) →
     ∃ ds df,
       successes (report (processRow defLocale locales st row).2)
         = successes (report st) ++
           ReportEntrySuccess.mk fid defLocale update_base
             (ProFeature.documentId existing) (ProFeature.name updated) :: ds ∧
       failures (report (processRow defLocale locales st row).2)
         = failures (report st) ++ df ∧
       Forall (fun e => ReportEntrySuccess.action e = upsert_locale) ds ∧
       Forall (fun f => ReportEntryFailure.action f = upsert_locale) df).
Proof.
  intros Hid Hname Hfind.
  assert (calls r1 = calls (remote st) ++ [GET_pro_features fid]) as Hr1.
  { revert Hfind. unfold Sync.findDocumentByFeatureId.
    destruct (client_get fid (world (remote st))) as [[res|err] w];
      by intros [= _ <-]. }
  unfold Sync.processRow. rewrite Hid, Hname, Hfind.
  destruct (upsertLocaleVersion (ProFeature.documentId existing) defLocale
              name r1) as [[updated|err] r2] eqn:Hput.
  - assert (calls r2 = calls (remote st) ++
              [GET_pro_features fid;
               PUT_pro_features (ProFeature.documentId existing) defLocale name])
      as Hr2.
    { revert Hput. unfold Sync.upsertLocaleVersion.
      destruct (client_put _ _ _ (world r1)) as [res w].
      intros [= _ <-]. simpl. by rewrite Hr1, <- app_assoc. }
    unfold Sync.upsertLocales.
    match goal with |- context [forOf ?g ?s ?l] =>
      destruct (localeLoop_effect row fid (ProFeature.documentId existing) l s)
        as (ds & df & sent & Hs & Hf & Hc & _ & _ & _ & Fs & Ff & _ & _
            & Hpre & _);
      destruct (forOf g s l) as [[[]|t] st']
    end;
      simpl in *; rewrite <- app_assoc in Hs; simpl in Hs;
      rewrite Hr2, <- app_assoc in Hc; simpl in Hc;
      (split_and!;
       [by exists sent
       |eexists; split; [exact Hs|];
        constructor; [done|];
        eapply Forall_impl; [exact Fs|]; simpl; intros e (-> & _); done
       |intros updated' r2' [= <- <-]; exists ds, df;
        split_and!; [done|done|..];
        eapply Forall_impl; try eassumption; simpl; tauto]).
  - assert (calls r2 = calls (remote st) ++
              [GET_pro_features fid;
               PUT_pro_features (ProFeature.documentId existing) defLocale name])
      as Hr2.
    { revert Hput. unfold Sync.upsertLocaleVersion.
      destruct (client_put _ _ _ (world r1)) as [res w].
      intros [= _ <-]. simpl. by rewrite Hr1, <- app_assoc. }
    rewrite baseFailed_cases.
    destruct (formatError err) as [msg|t]; simpl; rewrite Hr2;
      (split_and!;
       [exists []; split; [done|apply prefix_nil]
       |exists []; by rewrite app_nil_r
       |done]).
Qed.


End Idempotence.

(** *** A feature id that comes twice *)

Section Updatable.

Hypothesis laws : RemoteLaws client_get client_post client_put.

(** X9: a feature id that comes twice in one CSV is created at most once.
    When the base step of a row succeeded, a later row of the same run with
    the same feature id and a default-locale name has, when the loop reaches
    it, an [update-base] success as its base entry, and no [create-base]
    entry. *)
Theorem repeated_feature_id_is_updated records r i j rowi rowj fid name si sj :
  i < j →
  records !! i = Some rowi →
  records !! j = Some rowj →
  nonEmpty (cell rowi "feature_id") = Some fid →
  nonEmpty (cell rowj "feature_id") = Some fid →
  nonEmpty (cell rowj (defaultLocaleOf records)) = Some name →
  stateAt records r i = Some si →
  (∃ e ds,
     successes (report (processRow (defaultLocaleOf records)
                          (otherLocalesOf records) si rowi).2)
       = successes (report si) ++ e :: ds) →
  stateAt records r j = Some sj →
  ∃ e ds df,
    successes (report (processRow (defaultLocaleOf records)
                         (otherLocalesOf records) sj rowj).2)
      = successes (report sj) ++ e :: ds ∧
    failures (report (processRow (defaultLocaleOf records)
                        (otherLocalesOf records) sj rowj).2)
      = failures (report sj) ++ df ∧
    ReportEntrySuccess.action e = update_base ∧
    ReportEntrySuccess.featureId e = fid ∧
    Forall (fun e' => ReportEntrySuccess.action e' = upsert_locale) ds ∧
    Forall (fun f => ReportEntryFailure.action f = upsert_locale) df.
Proof.
  intros Hij Hrowi Hrowj Hidi Hidj Hname Hsi (e & ds & Hfirst) Hsj.
  pose proof (discovery _ _ _ laws) as Hlaws.
  apply (processRow_success_discoverable Hlaws) in Hfirst
    as (fid' & name' & Hid' & _ & HD).
  assert (fid' = fid) as -> by congruence.
  destruct (stateAt_passed records r i j rowi si sj)
    as (si' & Hrowi' & Hsi'); [done..|].
  rewrite Hrowi' in HD. simpl in HD.
  apply (stateAt_later_keeps Hlaws fid records r (S i) j si' sj) in HD;
    [|lia|done..].
  destruct HD as (doc & docs & m & w & Hget).
  assert (findDocumentByFeatureId fid (remote sj)
          = (Normal (Some doc),
             {| world := w;
                calls := calls (remote sj) ++ [GET_pro_features fid] |}))
    as Hfind.
  { unfold Sync.findDocumentByFeatureId. by rewrite Hget. }
  destruct (found_updatable _ _ _ laws fid (world (remote sj)) _ doc w
              (defaultLocaleOf records) name Hget eq_refl)
    as (v & w2 & Hput).
  destruct (processRow_on_existing (defaultLocaleOf records)
              (otherLocalesOf records) sj rowj fid name doc _ Hidj Hname Hfind)
    as (_ & _ & Hupdated).
  destruct (Hupdated v
              {| world := w2;
                 calls := (calls (remote sj) ++ [GET_pro_features fid]) ++
                          [PUT_pro_features (ProFeature.documentId doc)
                             (defaultLocaleOf records) name] |})
    as (ds' & df' & Hs & Hf & Fs & Ff).
  { unfold Sync.upsertLocaleVersion. simpl. by rewrite Hput. }
  eexists _, ds', df'. by split_and!.
Qed.

End Updatable.

(** *** Further properties: formatting, header, exit codes *)

Lemma getProp_error_response message props :
  truthy (lookupProp props "response") = true →
  getProp (JError message props) "response" = lookupProp props "response".
Proof.
  intros Ht. unfold getProp. rewrite decide_False by done.
  by destruct (lookupProp props "response").
Qed.

(** X1: the body of the response comes before the Error's own message: an
    Error that carries a truthy [response] is formatted as the plain object
    with the same properties, whatever its message. *)
Theorem formatError_response_first message props :
  truthy (lookupProp props "response") = true →
  formatError (JError message props) = formatError (JObj props).
Proof.
  intros Ht. unfold Sync.formatError.
  rewrite (getProp_error_response _ _ Ht).
  change (getProp (JObj props) "response") with (lookupProp props "response").
  by rewrite Ht.
Qed.

(** X2: with a [JSON.stringify] that is [undefined] on [undefined] only,
    [formatError] returns [undefined], not a string, exactly for the thrown
    value [undefined] and for a value whose truthy [response] has no [data]. *)
Theorem formatError_undefined err :
  (∀ v, JSON_stringify v = None ↔ v = JUndefined) →
  formatError err = Normal None ↔
    err = JUndefined ∨
    (truthy (getProp err "response") = true ∧
     getProp (getProp err "response") "data" = JUndefined).
Proof.
  intros Hjs.
  assert (∀ v, Normal (JSON_stringify v) = Normal None ↔ v = JUndefined)
    as Hjs'.
  { intros v. rewrite <- Hjs. split; [by intros [= ->]|by intros ->]. }
  unfold Sync.formatError.
  destruct (truthy (getProp err "response")) eqn:Hresp.
  - destruct (truthy (getProp (getProp (getProp err "response") "data") "error"))
      eqn:Hbody.
    + split.
      * destruct (toStr _) as [name|t]; [|done].
        by destruct (if truthy _ then _ else _).
      * intros [->|[_ Hdata]]; [done|]. by rewrite Hdata in Hbody.
    + rewrite Hjs'. split; [auto|]. intros [->|[_ ?]]; done.
  - destruct err; rewrite ?Hjs'; split; try done; try (intros [?|[? _]]; done).
    by left.
Qed.

Lemma headersRejected_false headers :
  headersRejected headers = false ↔
  ∃ defLocale locales, headers = "feature_id" :: defLocale :: locales.
Proof.
  unfold headersRejected. split.
  - intros [Hlen Hfirst]%orb_false_elim.
    apply negb_false_iff, bool_decide_eq_true in Hfirst.
    destruct headers as [|a [|b rest]]; try done.
    simpl in Hfirst. injection Hfirst as ->. eauto.
  - intros (defLocale & locales & ->). done.
Qed.

(** X3: a report is written only for a CSV whose first record has the keys
    [feature_id], then the report's default locale, then the report's other
    locales, in this order. *)
Theorem report_columns columns records disk r rep r' :
  processCsv (Parsed columns records) disk r = (ReportWritten rep, r') →
  ∃ first rest,
    records = first :: rest ∧
    Object_keys first = "feature_id" :: defaultLocale rep :: otherLocales rep.
Proof.
  intros Hrun.
  destruct (written_report _ _ _ _ _ _ Hrun) as (_ & _ & _ & _ & _ & -> & ->).
  apply processCsv_report in Hrun as (Hne & Hhead & _).
  destruct records as [|first rest]; [done|]. exists first, rest.
  split; [done|].
  unfold defaultLocaleOf, otherLocalesOf.
  change (default [] (head (first :: rest))) with first in *.
  apply headersRejected_false in Hhead as (defLocale & locales & ->). done.
Qed.

(** The requests of the loop over the records come after those sent
    before. *)
Lemma processRows_calls defLocale locales records st :
  ∃ cs,
    calls (remote (processRows defLocale locales st records).2)
      = calls (remote st) ++ cs.
Proof.
  revert st. induction records as [|row records IH]; intros st.
  - exists []. by rewrite app_nil_r.
  - unfold Sync.processRows in *. simpl forOf.
    destruct (processRow_effect defLocale locales st row)
      as (c & cs & _ & _ & Hc & _).
    destruct (processRow defLocale locales st row) as [[[]|t] st1].
    + destruct (IH st1) as (cs' & Hcs'). exists (cs ++ cs').
      simpl in *. by rewrite Hcs', Hc, app_assoc.
    + by exists cs.
Qed.

(** The only exception of [formatError] is the TypeError of a conversion. *)
Lemma toStr_throws v t : toStr v = Throw t → t = typeError.
Proof.
  unfold Sync.toStr.
  destruct v as [| |[|]| | | | |]; try done;
    match goal with |- context [String_ ?v] => destruct (String_ v) end;
    by intros [= <-].
Qed.

Lemma formatError_throws err t : formatError err = Throw t → t = typeError.
Proof.
  unfold Sync.formatError.
  destruct (truthy (getProp err "response")).
  - destruct (truthy (getProp (getProp (getProp err "response") "data") "error"));
      [|done].
    destruct (toStr (or_else _ _)) as [name|t'] eqn:Hname.
    + destruct (truthy _); [|done].
      destruct (toStr (getProp _ "message")) as [message|t'] eqn:Hmessage;
        [done|].
      intros [= <-]. by eapply toStr_throws.
    + intros [= <-]. by eapply toStr_throws.
  - by destruct err.
Qed.

Lemma localeLoop_throws row fid d locales st t st' :
  forOf (upsertLocaleStep row fid d) st locales = (Throw t, st') →
  t = typeError.
Proof.
  revert st. induction locales as [|l locales IH]; intros st; [done|].
  simpl forOf. rewrite upsertLocaleStep_cases.
  destruct (nonEmpty (cell row l)) as [n|]; [|apply IH].
  destruct (client_put d l n (world (remote st))) as [[v|err] w];
    cbn [fst snd]; cbv zeta; [apply IH|].
  destruct (formatError err) as [msg|t'] eqn:Hfmt; [apply IH|].
  intros [= <- _]. by eapply formatError_throws.
Qed.

Lemma processRow_throws defLocale locales st row t st' :
  processRow defLocale locales st row = (Throw t, st') → t = typeError.
Proof.
  rewrite processRow_baseStep.
  destruct (nonEmpty (cell row "feature_id")) as [fid|]; [|done].
  destruct (nonEmpty (cell row defLocale)) as [name|]; [|done].
  destruct (baseStep defLocale fid name (remote st)) as [[a d n|err] r1].
  - unfold Sync.upsertLocales.
    match goal with |- context [forOf ?g ?s ?l] =>
      destruct (forOf g s l) as [[[]|t'] st1] eqn:Hloop
    end; [done|].
    intros [= <- _]. by eapply localeLoop_throws.
  - rewrite baseFailed_cases.
    destruct (formatError err) as [msg|t'] eqn:Hfmt; [done|].
    intros [= <- _]. by eapply formatError_throws.
Qed.

Lemma processRows_throws defLocale locales records st t st' :
  processRows defLocale locales st records = (Throw t, st') → t = typeError.
Proof.
  unfold Sync.processRows.
  revert st. induction records as [|row records IH]; intros st; [done|].
  simpl forOf.
  destruct (processRow defLocale locales st row) as [[[]|t'] st1] eqn:Hrow;
    [apply IH|].
  intros [= <- _]. by eapply processRow_throws.
Qed.

(** How [processCsv] ends, by the file. *)
Lemma processCsv_cases file disk r :
  match file with
  | FileMissing => processCsv file disk r = (Exited 1, r)
  | Unreadable message => processCsv file disk r = (Rejected (JError message []), r)
  | Parsed _ [] => processCsv file disk r = (ReturnedEarly, r)
  | Parsed _ (first :: rest) =>
      if headersRejected (Object_keys first) then
        processCsv file disk r = (Exited 1, r)
      else
        match stateAt (first :: rest) r (length (first :: rest)) with
        | None =>
            ∃ st, processCsv file disk r = (Rejected typeError, remote st)
        | Some st =>
            match writeReport disk (report st) with
            | Normal _ =>
                processCsv file disk r = (ReportWritten (report st), remote st)
            | Throw t =>
                processCsv file disk r = (Rejected t, remote st) ∧
                ∃ message, t = JError message []
            end
        end
  end.
Proof.
  destruct file as [|message|columns [|first rest]]; try done.
  unfold Sync.processCsv, Vocabulary.stateAt.
  destruct (headersRejected (Object_keys first)); [done|].
  rewrite firstn_all. unfold defaultLocaleOf, otherLocalesOf. cbv zeta.
  change (default [] (head (first :: rest))) with first.
  destruct (processRows _ _ _ (first :: rest)) as [[[]|t] st] eqn:Hrows.
  - destruct (writeReport disk (report st)) as [[]|t] eqn:Hwrite; [done|].
    split; [done|]. revert Hwrite. unfold Sync.writeReport, Sync.ensureReportsDir.
    destruct (process_cwd disk), (existsSync_reportsDir disk),
      (mkdirSync disk), (writeFileSync disk (report st)); intros [=]; eauto.
  - apply processRows_throws in Hrows as ->. by exists st.
Qed.

(** X4: [processCsv] sends requests only in its loop over the records.
    When it ends the process, which it does with code 1 only, when it
    returns early and when the file cannot be read, the remote side is as
    it was; and when the remote side has changed, the CSV has records and
    an accepted header, and [processCsv] has ended by writing the report or
    by rejecting. *)
Theorem requests_need_an_accepted_csv file disk r out r' :
  processCsv file disk r = (out, r') →
  (∀ code, out = Exited code → code = 1%Z ∧ r' = r) ∧
  (out = ReturnedEarly → r' = r) ∧
  (∀ message, file = Unreadable message → r' = r) ∧
  (r' ≠ r →
   (∃ columns records,
      file = Parsed columns records ∧ records ≠ [] ∧
      headersRejected (Object_keys (default [] (head records))) = false) ∧
   ((∃ rep, out = ReportWritten rep) ∨ (∃ t, out = Rejected t))).
Proof.
  intros Hrun. pose proof (processCsv_cases file disk r) as Hcases.
  destruct file as [|message|columns [|first rest]].
  - rewrite Hcases in Hrun. injection Hrun as <- <-.
    split_and!; try done. by intros code [= <-].
  - rewrite Hcases in Hrun. injection Hrun as <- <-. by split_and!.
  - rewrite Hcases in Hrun. injection Hrun as <- <-. by split_and!.
  - destruct (headersRejected (Object_keys first)) eqn:Hhead.
    { rewrite Hcases in Hrun. injection Hrun as <- <-.
      split_and!; try done. by intros code [= <-]. }
    assert ((∃ rep, out = ReportWritten rep) ∨ (∃ t, out = Rejected t)) as Hout.
    { destruct (stateAt _ _ _) as [st|].
      - destruct (writeReport disk (report st)) as [[]|t].
        + rewrite Hcases in Hrun. injection Hrun as <- _. eauto.
        + destruct Hcases as [Hcases _]. rewrite Hcases in Hrun.
          injection Hrun as <- _. eauto.
      - destruct Hcases as (st & Hcases). rewrite Hcases in Hrun.
        injection Hrun as <- _. eauto. }
    split_and!.
    + intros code ->. by destruct Hout as [(? & ?)|(? & ?)].
    + intros ->. by destruct Hout as [(? & ?)|(? & ?)].
    + done.
    + intros _. split; [|done]. exists columns, (first :: rest). by split_and!.
Qed.

(** X5: the exit code of [main] is 0 or 1.  It is 0 exactly when a path is
    given, the file parses, and either it has no record, or its header is
    accepted, no exception escapes the loop over the records and the file
    system takes the report. *)
Theorem main_exit_code csvPath fs disk r code r' :
  main csvPath fs disk r = (code, r') →
  (code = 0%Z ∨ code = 1%Z) ∧
  (code = 0%Z ↔
   ∃ p columns records,
     nonEmpty csvPath = Some p ∧
     fs p = Parsed columns records ∧
     (records = [] ∨
      (headersRejected (Object_keys (default [] (head records))) = false ∧
       ∃ st, stateAt records r (length records) = Some st ∧
             writeReport disk (report st) = Normal ()))).
Proof.
  unfold Sync.main.
  destruct (nonEmpty csvPath) as [p|].
  2:{ intros [= <- <-]. split; [by right|].
      split; [done|]. by intros (? & ? & ? & ? & _). }
  pose proof (processCsv_cases (fs p) disk r) as Hcases.
  destruct (fs p) as [|message|columns [|first rest]] eqn:Hfs.
  - rewrite Hcases. intros [= <- <-]. split; [by right|].
    split; [done|]. intros (? & ? & ? & [= <-] & ? & _). congruence.
  - rewrite Hcases. intros [= <- <-]. split; [by right|].
    split; [done|]. intros (? & ? & ? & [= <-] & ? & _). congruence.
  - rewrite Hcases. intros [= <- <-]. split; [by left|].
    split; [|done]. intros _. exists p, columns, []. auto.
  - change first with (default [] (head (first :: rest))) in Hcases at 1.
    destruct (headersRejected _) eqn:Hhead.
    { rewrite Hcases. intros [= <- <-]. split; [by right|].
      split; [done|].
      intros (? & ? & ? & [= <-] & Hp & Hok). rewrite Hfs in Hp.
      injection Hp as <- <-. destruct Hok as [?|[? _]]; congruence. }
    destruct (stateAt _ _ _) as [st|] eqn:Hst.
    + destruct (writeReport disk (report st)) as [[]|t] eqn:Hwrite.
      * rewrite Hcases. intros [= <- <-]. split; [by left|].
        split; [|done]. intros _. exists p, columns, (first :: rest).
        split_and!; [done..|]. right. split; [done|]. by exists st.
      * destruct Hcases as [-> _]. intros [= <- <-]. split; [by right|].
        split; [done|].
        intros (? & ? & ? & [= <-] & Hp & Hok). rewrite Hfs in Hp.
        injection Hp as <- <-.
        destruct Hok as [?|(_ & st' & Hst' & Hw)]; congruence.
    + destruct Hcases as (st & ->). intros [= <- <-]. split; [by right|].
      split; [done|].
      intros (? & ? & ? & [= <-] & Hp & Hok). rewrite Hfs in Hp.
      injection Hp as <- <-.
      destruct Hok as [?|(_ & st' & Hst' & _)]; congruence.
Qed.

(** *** Further properties: the requests of a run *)

(** Step 1 by the answers of the remote side. *)
Lemma baseStep_cases defLocale fid name r :
  baseStep defLocale fid name r =
  let sent cs w := {| world := w; calls := calls r ++ cs |} in
  match client_get fid (world r) with
  | (Throw err, w1) => (BaseThrew err, sent [GET_pro_features fid] w1)
  | (Normal res, w1) =>
      match head (data res) with
      | None =>
          let cs := [GET_pro_features fid;
                     POST_pro_features fid name defLocale] in
          match client_post fid name defLocale w1 with
          | (Throw err, w2) => (BaseThrew err, sent cs w2)
          | (Normal baseDoc, w2) =>
              (BaseOk create_base (ProFeature.documentId baseDoc)
                 (ProFeature.name baseDoc), sent cs w2)
          end
      | Some existing =>
          let cs := [GET_pro_features fid;
                     PUT_pro_features (ProFeature.documentId existing)
                       defLocale name] in
          match client_put (ProFeature.documentId existing) defLocale name w1 with
          | (Throw err, w2) => (BaseThrew err, sent cs w2)
          | (Normal updatedBase, w2) =>
              (BaseOk update_base (ProFeature.documentId existing)
                 (ProFeature.name updatedBase), sent cs w2)
          end
      end
  end.
Proof.
  unfold Sync.baseStep, Sync.findDocumentByFeatureId, Sync.createBaseDocument,
    Sync.upsertLocaleVersion.
  destruct (client_get fid (world r)) as [[res|err] w1]; [|done].
  destruct (head (data res)) as [existing|]; simpl.
  - destruct (client_put _ _ _ w1) as [[updated|err] w2];
      by rewrite <- app_assoc.
  - destruct (client_post _ _ _ w1) as [[created|err] w2];
      by rewrite <- app_assoc.
Qed.

(** The requests of a row after step 1: none when step 1 failed, those of
    the filled locale columns when it succeeded, all of them when the row
    is processed to its end. *)
Lemma processRow_locale_requests defLocale locales st row fid name :
  nonEmpty (cell row "feature_id") = Some fid →
  nonEmpty (cell row defLocale) = Some name →
  match baseStep defLocale fid name (remote st) with
  | (BaseThrew _, r) => remote (processRow defLocale locales st row).2 = r
  | (BaseOk _ d _, r) =>
      ∃ sent,
        calls (remote (processRow defLocale locales st row).2)
          = calls r ++ sent ∧
        sent `prefix_of` localePuts row d locales ∧
        ((processRow defLocale locales st row).1 = Normal () →
         sent = localePuts row d locales)
  end.
Proof.
  intros Hid Hname. rewrite processRow_baseStep, Hid, Hname.
  destruct (baseStep defLocale fid name (remote st)) as [[a d n|err] r].
  - unfold Sync.upsertLocales.
    match goal with |- context [forOf ?g ?s ?l] =>
      destruct (localeLoop_effect row fid d l s)
        as (ds & df & sent & _ & _ & Hc & _ & _ & _ & _ & _ & _ & _
            & Hpre & Hend);
      destruct (forOf g s l) as [[[]|t] st']
    end; simpl in *; exists sent; split_and!; try done.
    intros _. by apply Hend.
  - rewrite baseFailed_cases. by destruct (formatError err).
Qed.

(** X6: a row that fails a presence check sends nothing.  A row that passes
    them sends the lookup of its feature id first.  When the lookup throws,
    nothing follows.  When it finds no document, the creation follows; when
    it finds one, the update of the default locale of that document.  When
    that write throws, nothing follows; when it succeeds, updates of the
    filled locale columns follow, in column order, on the document created
    or found: all of them when the row is processed to its end, the first
    of them when an exception escapes the row. *)
Theorem row_requests defLocale locales st row :
  match nonEmpty (cell row "feature_id"), nonEmpty (cell row defLocale) with
  | Some fid, Some name =>
      match client_get fid (world (remote st)) with
      | (Throw _, _) =>
          calls (remote (processRow defLocale locales st row).2)
            = calls (remote st) ++ [GET_pro_features fid]
      | (Normal res, w1) =>
          match head (data res) with
          | None =>
              match client_post fid name defLocale w1 with
              | (Throw _, _) =>
                  calls (remote (processRow defLocale locales st row).2)
                    = calls (remote st) ++
                      [GET_pro_features fid;
                       POST_pro_features fid name defLocale]
              | (Normal baseDoc, _) =>
                  ∃ sent,
                    calls (remote (processRow defLocale locales st row).2)
                      = calls (remote st) ++
                        GET_pro_features fid ::
                        POST_pro_features fid name defLocale :: sent ∧
                    sent `prefix_of`
                      localePuts row (ProFeature.documentId baseDoc) locales ∧
                    ((processRow defLocale locales st row).1 = Normal () →
                     sent = localePuts row (ProFeature.documentId baseDoc)
                              locales)
              end
          | Some existing =>
              match client_put (ProFeature.documentId existing) defLocale
                      name w1 with
              | (Throw _, _) =>
                  calls (remote (processRow defLocale locales st row).2)
                    = calls (remote st) ++
                      [GET_pro_features fid;
                       PUT_pro_features (ProFeature.documentId existing)
                         defLocale name]
              | (Normal _, _) =>
                  ∃ sent,
                    calls (remote (processRow defLocale locales st row).2)
                      = calls (remote st) ++
                        GET_pro_features fid ::
                        PUT_pro_features (ProFeature.documentId existing)
                          defLocale name :: sent ∧
                    sent `prefix_of`
                      localePuts row (ProFeature.documentId existing) locales ∧
                    ((processRow defLocale locales st row).1 = Normal () →
                     sent = localePuts row (ProFeature.documentId existing)
                              locales)
              end
          end
      end
  | _, _ =>
      (processRow defLocale locales st row).1 = Normal () ∧
      remote (processRow defLocale locales st row).2 = remote st
  end.
Proof.
  destruct (nonEmpty (cell row "feature_id")) as [fid|] eqn:Hid.
  2:{ unfold Sync.processRow. by rewrite Hid. }
  destruct (nonEmpty (cell row defLocale)) as [name|] eqn:Hname.
  2:{ unfold Sync.processRow. by rewrite Hid, Hname. }
  pose proof (processRow_locale_requests defLocale locales st row fid name
                Hid Hname) as Hrest.
  rewrite baseStep_cases in Hrest. cbv zeta in Hrest.
  destruct (client_get fid (world (remote st))) as [[res|err] w1];
    [|by rewrite Hrest].
  destruct (head (data res)) as [existing|].
  - destruct (client_put _ _ _ w1) as [[updated|err] w2]; [|by rewrite Hrest].
    destruct Hrest as (sent & Hc & Hpre & Hend). exists sent.
    simpl in Hc. rewrite <- app_assoc in Hc. by split_and!.
  - destruct (client_post _ _ _ w1) as [[created|err] w2]; [|by rewrite Hrest].
    destruct Hrest as (sent & Hc & Hpre & Hend). exists sent.
    simpl in Hc. rewrite <- app_assoc in Hc. by split_and!.
Qed.

Lemma localePuts_no_creation row d locales i f n l :
  localePuts row d locales !! i ≠ Some (POST_pro_features f n l).
Proof.
  revert i. induction locales as [|l' locales IH]; intros i; [done|].
  rewrite localePuts_cons. destruct (nonEmpty (cell row l')); [|by apply IH].
  destruct i; [done|]. by apply IH.
Qed.

Lemma LookupFirst_nil : LookupFirst [].
Proof. by intros i ? ? ? ?. Qed.

Lemma LookupFirst_app cs1 cs2 :
  LookupFirst cs1 → LookupFirst cs2 → LookupFirst (cs1 ++ cs2).
Proof.
  intros H1 H2 i f n l Hi.
  destruct (decide (i < length cs1)) as [Hlt|Hge].
  - rewrite lookup_app_l in Hi by done.
    destruct (H1 _ _ _ _ Hi) as (j & -> & Hj). exists j. split; [done|].
    rewrite lookup_app_l by lia. done.
  - rewrite lookup_app_r in Hi by lia.
    destruct (H2 _ _ _ _ Hi) as (j & Hij & Hj).
    exists (length cs1 + j). split; [lia|].
    rewrite lookup_app_r by lia.
    by replace (length cs1 + j - length cs1) with j by lia.
Qed.

(** The requests of step 1, and the locale updates that may follow them. *)
Lemma LookupFirst_row defLocale fid name r res r' row d locales sent :
  baseStep defLocale fid name r = (res, r') →
  sent `prefix_of` localePuts row d locales →
  ∃ cs, calls r' = calls r ++ cs ∧ LookupFirst (cs ++ sent).
Proof.
  intros Hbase Hpre.
  assert (∀ i f n l, sent !! i ≠ Some (POST_pro_features f n l)) as Hsent.
  { intros i f n l Hi.
    apply (prefix_lookup_Some _ _ _ _ Hi) in Hpre.
    by apply localePuts_no_creation in Hpre. }
  rewrite baseStep_cases in Hbase. cbv zeta in Hbase.
  destruct (client_get fid (world r)) as [[found|err] w1].
  2:{ injection Hbase as _ <-. eexists. split; [done|].
      intros [|i] f n l Hi; [done|]. simpl in Hi. by apply Hsent in Hi. }
  destruct (head (data found)) as [existing|].
  - assert (r' = {| world := world r';
                    calls := calls r ++
                      [GET_pro_features fid;
                       PUT_pro_features (ProFeature.documentId existing)
                         defLocale name] |}) as ->.
    { by destruct (client_put _ _ _ w1) as [[updated|err] w2];
        injection Hbase as _ <-. }
    eexists. split; [done|].
    intros [|[|i]] f n l Hi; [done..|]. simpl in Hi. by apply Hsent in Hi.
  - assert (r' = {| world := world r';
                    calls := calls r ++
                      [GET_pro_features fid;
                       POST_pro_features fid name defLocale] |}) as ->.
    { by destruct (client_post _ _ _ w1) as [[created|err] w2];
        injection Hbase as _ <-. }
    eexists. split; [done|].
    intros [|[|i]] f n l Hi; [done| |].
    + injection Hi as <- _ _. by exists 0.
    + simpl in Hi. by apply Hsent in Hi.
Qed.

Lemma processRow_lookup_first defLocale locales st row :
  ∃ cs,
    calls (remote (processRow defLocale locales st row).2)
      = calls (remote st) ++ cs ∧
    LookupFirst cs.
Proof.
  destruct (nonEmpty (cell row "feature_id")) as [fid|] eqn:Hid.
  2:{ unfold Sync.processRow. rewrite Hid. exists [].
      rewrite app_nil_r. auto using LookupFirst_nil. }
  destruct (nonEmpty (cell row defLocale)) as [name|] eqn:Hname.
  2:{ unfold Sync.processRow. rewrite Hid, Hname. exists [].
      rewrite app_nil_r. auto using LookupFirst_nil. }
  pose proof (processRow_locale_requests defLocale locales st row fid name
                Hid Hname) as Hrest.
  destruct (baseStep defLocale fid name (remote st)) as [[a d n|err] r] eqn:Hbase.
  - destruct Hrest as (sent & Hc & Hpre & _).
    destruct (LookupFirst_row _ _ _ _ _ _ _ _ _ _ Hbase Hpre)
      as (cs & Hcs & Hfirst).
    exists (cs ++ sent). split; [|done]. by rewrite Hc, Hcs, app_assoc.
  - destruct (LookupFirst_row _ _ _ _ _ _ row "" locales [] Hbase
                (prefix_nil _)) as (cs & Hcs & Hfirst).
    rewrite app_nil_r in Hfirst. exists cs. by rewrite Hrest.
Qed.

Lemma processRows_lookup_first defLocale locales records st :
  ∃ cs,
    calls (remote (processRows defLocale locales st records).2)
      = calls (remote st) ++ cs ∧
    LookupFirst cs.
Proof.
  revert st. induction records as [|row records IH]; intros st.
  - exists []. rewrite app_nil_r. auto using LookupFirst_nil.
  - destruct (processRow_lookup_first defLocale locales st row)
      as (cs1 & Hcs1 & Hfirst1).
    unfold Sync.processRows in *. simpl forOf.
    destruct (processRow defLocale locales st row) as [[[]|t] st1];
      [|by exists cs1].
    destruct (IH st1) as (cs2 & Hcs2 & Hfirst2).
    exists (cs1 ++ cs2). split; [|by apply LookupFirst_app].
    simpl in *. by rewrite Hcs2, Hcs1, app_assoc.
Qed.

(** The requests of [processCsv] are those of its loop. *)
Lemma processCsv_remote columns first rest disk r :
  headersRejected (Object_keys first) = false →
  (processCsv (Parsed columns (first :: rest)) disk r).2 =
  remote (processRows (default "" (Object_keys first !! 1))
            (drop 2 (Object_keys first))
            {| remote := r;
               report := initialReport (default "" (Object_keys first !! 1))
                           (drop 2 (Object_keys first)) |}
            (first :: rest)).2.
Proof.
  intros Hhead. unfold Sync.processCsv. rewrite Hhead. cbv zeta.
  destruct (processRows _ _ _ _) as [[[]|t] st]; [|done].
  by destruct (writeReport disk (report st)).
Qed.

(** X7: whatever the file and the remote side, no document is created
    without a lookup: among the requests of a run, every creation comes right
    after the lookup of the same feature id. *)
Theorem creation_follows_lookup file disk r :
  ∃ cs,
    calls (processCsv file disk r).2 = calls r ++ cs ∧
    LookupFirst cs.
Proof.
  destruct file as [|err|columns [|first rest]];
    try (exists []; rewrite app_nil_r; split; [done|]; by intros i ? ? ? ?).
  destruct (headersRejected (Object_keys first)) eqn:Hhead.
  { unfold Sync.processCsv. rewrite Hhead.
    exists []. rewrite app_nil_r. split; [done|]. by intros i ? ? ? ?. }
  rewrite (processCsv_remote _ _ _ _ _ Hhead).
  match goal with |- context [processRows ?d ?l ?s ?rs] =>
    destruct (processRows_lookup_first d l rs s) as (cs & Hcs & Hfirst)
  end.
  exists cs. by split.
Qed.

(** *** Further properties: what the report holds *)

Lemma filled_subseteq row locales l : l ∈ filled row locales → l ∈ locales.
Proof. unfold filled. by intros [_ ?]%list_elem_of_filter. Qed.

Lemma chunks_refer_to_rows defLocale locales rows chunks :
  Forall2 (RowChunks defLocale locales) rows chunks →
  Forall (fun e =>
            ReportEntrySuccess.locale e ∈ defLocale :: locales ∧
            ∃ row, row ∈ rows ∧
                   nonEmpty (cell row "feature_id")
                   = Some (ReportEntrySuccess.featureId e))
         (concat chunks.*1) ∧
  Forall (fun f =>
            ReportEntryFailure.locale f ∈ defLocale :: locales ∧
            ReportEntryFailure.row f ∈ rows)
         (concat chunks.*2).
Proof.
  induction 1 as [|row [ds df] rows chunks (HS & HF & _) _ [IHs IHf]];
    [by split|].
  rewrite !fmap_cons, !concat_cons. cbn [fst snd] in *.
  split; apply Forall_app; split.
  - destruct HS as [->|(base & locs & -> & _ & Hloc & Hid & Hlocs & Hsub)];
      [done|].
    constructor.
    + split; [rewrite Hloc; by left|]. exists row. split; [by left|done].
    + apply Forall_forall. intros e He.
      pose proof (proj1 (Forall_forall _ _) Hlocs e He) as (_ & Hfid & _).
      split.
      * right. eapply filled_subseteq, (sublist_subseteq _ _ Hsub).
        by apply list_elem_of_fmap_2.
      * exists row. split; [by left|]. by rewrite Hfid.
  - eapply Forall_impl; [exact IHs|]. simpl.
    intros e (? & row' & ? & ?). split; [done|]. exists row'.
    split; [by right|done].
  - destruct HF as [Hrows [(f & -> & _ & Hloc)|[_ Hsub]]].
    + constructor; [|done]. split; [rewrite Hloc; by left|].
      apply Forall_cons in Hrows as [-> _]. by left.
    + apply Forall_forall. intros f Hf.
      pose proof (proj1 (Forall_forall _ _) Hrows f Hf) as ->.
      split; [|by left].
      right. eapply filled_subseteq, (sublist_subseteq _ _ Hsub).
      by apply list_elem_of_fmap_2.
  - eapply Forall_impl; [exact IHf|]. simpl.
    intros f (? & ?). split; [done|]. by right.
Qed.

(** X8: the entries of a written report refer to the CSV.  The locale of
    every entry is the default locale or one of the other locale columns;
    the feature id of every success is the non-empty [feature_id] of a
    record; the row of every failure is a record. *)
Theorem report_entries_refer_to_csv columns records disk r rep r' :
  processCsv (Parsed columns records) disk r = (ReportWritten rep, r') →
  Forall (fun e =>
            ReportEntrySuccess.locale e ∈ defaultLocale rep :: otherLocales rep ∧
            ∃ row, row ∈ records ∧
                   nonEmpty (cell row "feature_id")
                   = Some (ReportEntrySuccess.featureId e))
         (successes rep) ∧
  Forall (fun f =>
            ReportEntryFailure.locale f ∈ defaultLocale rep :: otherLocales rep ∧
            ReportEntryFailure.row f ∈ records)
         (failures rep).
Proof.
  intros (chunks & Hall & -> & -> & _ & -> & ->)%written_report.
  by apply chunks_refer_to_rows.
Qed.

(** *** Further properties: a remote side that never throws *)

Section Healthy.

Hypothesis healthy : NeverThrows client_get client_post client_put.

Lemma localeLoop_healthy row fid d locales st :
  ∃ st',
    forOf (upsertLocaleStep row fid d) st locales = (Normal (), st') ∧
    failures (report st') = failures (report st) ∧
    length (successes (report st'))
      = length (successes (report st)) + length (filled row locales) ∧
    processedRows (report st') = processedRows (report st).
Proof.
  revert st. induction locales as [|l locales IH]; intros st.
  - exists st. simpl. split_and!; [done..|lia|done].
  - simpl forOf. rewrite filled_cons, upsertLocaleStep_cases.
    destruct (nonEmpty (cell row l)) as [n|]; [|apply IH].
    destruct healthy as (_ & _ & Hput).
    destruct (Hput d l n (world (remote st))) as (doc & w' & ->).
    cbn [fst snd]. cbv zeta.
    match goal with |- context [forOf ?g ?s ?ls] =>
      destruct (IH s) as (st' & -> & Hf & Hs & Hp)
    end.
    exists st'. simpl in *. rewrite Hf, Hs, Hp, length_app. simpl.
    split_and!; [done..|lia|done].
Qed.

Lemma processRow_healthy defLocale locales st row :
  ∃ st',
    processRow defLocale locales st row = (Normal (), st') ∧
    if passesChecks defLocale row then
      failures (report st') = failures (report st) ∧
      length (successes (report st'))
        = length (successes (report st)) + 1 + length (filled row locales) ∧
      processedRows (report st') = processedRows (report st) + 1
    else
      (∃ f, failures (report st') = failures (report st) ++ [f] ∧
            ReportEntryFailure.row f = row) ∧
      successes (report st') = successes (report st) ∧
      processedRows (report st') = processedRows (report st).
Proof.
  rewrite processRow_baseStep.
  destruct (nonEmpty (cell row "feature_id")) as [fid|] eqn:Hid.
  2:{ rewrite (passesChecks_false_id _ _ Hid). eexists. split; [done|].
      simpl. eauto. }
  destruct (nonEmpty (cell row defLocale)) as [name|] eqn:Hname.
  2:{ rewrite (passesChecks_false_name _ _ Hname). eexists. split; [done|].
      simpl. eauto. }
  rewrite (passesChecks_true _ _ _ _ Hid Hname).
  assert (∃ a d n r', baseStep defLocale fid name (remote st)
                      = (BaseOk a d n, r')) as (a & d & n & r' & ->).
  { unfold Sync.baseStep, Sync.findDocumentByFeatureId.
    destruct healthy as (Hget & Hpost & Hput).
    destruct (Hget fid (world (remote st))) as (res & w1 & ->). simpl.
    destruct (head (data res)) as [existing|].
    - unfold Sync.upsertLocaleVersion. simpl.
      destruct (Hput (ProFeature.documentId existing) defLocale name w1)
        as (doc & w2 & ->). eauto.
    - unfold Sync.createBaseDocument. simpl.
      destruct (Hpost fid name defLocale w1) as (doc & w2 & ->). eauto. }
  unfold Sync.upsertLocales.
  match goal with |- context [forOf ?f ?s ?l] =>
    destruct (localeLoop_healthy row fid d l s) as (st' & -> & Hf & Hs & Hp)
  end.
  eexists. split; [done|].
  simpl in *. rewrite Hf, Hs, Hp, length_app. simpl. split_and!; [done|lia|done].
Qed.

Lemma processRows_healthy defLocale locales records st :
  ∃ st',
    processRows defLocale locales st records = (Normal (), st') ∧
    (Forall (fun f => isCheckFailure defLocale f = true) (failures (report st)) →
     Forall (fun f => isCheckFailure defLocale f = true)
       (failures (report st'))) ∧
    length (failures (report st'))
      = length (failures (report st))
        + length (List.filter (fun row => negb (passesChecks defLocale row))
                    records) ∧
    processedRows (report st')
      = processedRows (report st)
        + length (List.filter (passesChecks defLocale) records) ∧
    length (successes (report st'))
      = length (successes (report st))
        + length (List.filter (passesChecks defLocale) records)
        + filledCells defLocale locales records.
Proof.
  revert st. induction records as [|row records IH]; intros st.
  - exists st. unfold filledCells. simpl. split_and!; [done..|lia|lia|lia].
  - unfold Sync.processRows in *. simpl forOf.
    destruct (processRow_healthy defLocale locales st row) as (st1 & -> & Hrow).
    destruct (IH st1) as (st' & -> & Hall & Hf & Hp & Hs).
    exists st'. split; [done|].
    rewrite Hf, Hp, Hs. unfold filledCells in *. cbn [List.filter].
    destruct (passesChecks defLocale row) eqn:Hpass; cbn [negb].
    + destruct Hrow as (Hf' & Hs' & Hp'). rewrite Hf', Hs', Hp'.
      rewrite fmap_cons. cbn [sum_list length]. unfold id.
      split_and!; [|lia..]. intros Hst. apply Hall. by rewrite Hf'.
    + destruct Hrow as ((f & Hf' & Hrow) & Hs' & Hp'). rewrite Hf', Hs', Hp'.
      rewrite length_app. cbn [length].
      split_and!; [|lia..]. intros Hst. apply Hall. rewrite Hf'.
      apply Forall_app. split; [done|]. constructor; [|done].
      unfold isCheckFailure. by rewrite Hrow, Hpass.
Qed.

(** X10: against a remote side that never throws, the only failures of a
    written report are the rows that failed a presence check, one failure
    each; every row that passed them is counted in [processedRows]; and the
    successes are one per such row plus one per filled locale cell of these
    rows. *)
Theorem healthy_remote_run columns records disk r rep r' :
  processCsv (Parsed columns records) disk r = (ReportWritten rep, r') →
  Forall (fun f => isCheckFailure (defaultLocale rep) f = true) (failures rep) ∧
  length (failures rep)
    = length (List.filter
                (fun row => negb (passesChecks (defaultLocale rep) row)) records) ∧
  processedRows rep
    = length (List.filter (passesChecks (defaultLocale rep)) records) ∧
  length (successes rep)
    = processedRows rep
      + filledCells (defaultLocale rep) (otherLocales rep) records.
Proof.
  intros Hrun.
  destruct (written_report _ _ _ _ _ _ Hrun) as (_ & _ & _ & _ & _ & Hd & Ho).
  apply processCsv_report in Hrun as (_ & _ & st & Hst & _ & -> & _).
  rewrite Hd, Ho. apply stateAt_all in Hst.
  match type of Hst with processRows ?d ?l ?s ?rs = _ =>
    destruct (processRows_healthy d l rs s) as (st' & Hst' & Hall & Hf & Hp & Hs)
  end.
  rewrite Hst in Hst'. injection Hst' as <-.
  simpl in *. rewrite Hf, Hp, Hs. split_and!; [by apply Hall|lia..].
Qed.

End Healthy.

(** *** Further properties: the log of a run *)

Local Abbreviation upsertLocaleStepLog :=
  (Journal.upsertLocaleStepLog W client_put JSON_stringify String_).
Local Abbreviation localesLog :=
  (Journal.localesLog W client_put JSON_stringify String_).
Local Abbreviation baseFailedLog :=
  (Journal.baseFailedLog JSON_stringify String_).
Local Abbreviation processRowLog :=
  (Journal.processRowLog W client_get client_post client_put
     JSON_stringify String_).
Local Abbreviation processRowsLog :=
  (Journal.processRowsLog W client_get client_post client_put
     JSON_stringify String_).
Local Abbreviation processCsvLog :=
  (Journal.processCsvLog W client_get client_post client_put
     JSON_stringify String_).

Lemma announcements_app log1 log2 :
  Journal.announcements (log1 ++ log2)
  = Journal.announcements log1 ++ Journal.announcements log2.
Proof. unfold Journal.announcements. by rewrite fmap_app, List.filter_app. Qed.

Lemma announce_is_announcement q : Journal.isAnnouncement (Journal.announce q) = true.
Proof. by destruct q. Qed.

(** What one iteration over the locales logs, by the cell, the answer of
    the remote side and the result of [formatError]. *)
Lemma upsertLocaleStepLog_cases row fid d st l :
  upsertLocaleStepLog row fid d st l =
  match nonEmpty (cell row l) with
  | None =>
      [(Logger.info,
        "Locale " +:+ dquote +:+ l +:+ dquote +:+ " empty for feature_id=" +:+
        fid +:+ ", skipping.")]
  | Some n =>
      (Logger.info, Journal.announce (PUT_pro_features d l n)) ::
      match (client_put d l n (world (remote st))).1 with
      | Normal _ => []
      | Throw err =>
          match formatError err with
          | Normal msg =>
              [(Logger.error,
                "Error processing locale=" +:+ l +:+ " for feature_id=" +:+
                fid +:+ ": " +:+ Journal.shown msg)]
          | Throw _ => []
          end
      end
  end.
Proof.
  unfold Journal.upsertLocaleStepLog, Sync.upsertLocaleVersion.
  destruct (nonEmpty (cell row l)) as [n|]; [|done].
  by destruct (client_put d l n (world (remote st))) as [[localized|err] w].
Qed.

Lemma localesLog_announcements row fid d locales st :
  ∃ sent,
    calls (remote (forOf (upsertLocaleStep row fid d) st locales).2)
      = calls (remote st) ++ sent ∧
    Journal.announcements (localesLog row fid d st locales)
      = Journal.announce <$> sent.
Proof.
  revert st. induction locales as [|l locales IH]; intros st.
  - exists []. by rewrite app_nil_r.
  - cbn [Journal.localesLog]. simpl forOf.
    rewrite announcements_app, upsertLocaleStepLog_cases, upsertLocaleStep_cases.
    destruct (nonEmpty (cell row l)) as [n|]; [|apply IH].
    destruct (client_put d l n (world (remote st))) as [[localized|err] w];
      cbn [fst snd]; cbv zeta.
    + match goal with |- context [forOf ?g ?s ?ls] =>
        destruct (IH s) as (sent & Hc & Hlog)
      end.
      exists (PUT_pro_features d l n :: sent). simpl in *.
      rewrite Hc, Hlog, <- app_assoc. done.
    + destruct (formatError err) as [msg|t].
      * match goal with |- context [forOf ?g ?s ?ls] =>
          destruct (IH s) as (sent & Hc & Hlog)
        end.
        exists (PUT_pro_features d l n :: sent). simpl in *.
        rewrite Hc, Hlog, <- app_assoc. done.
      * exists [PUT_pro_features d l n]. done.
Qed.

Lemma baseFailedLog_announcements fid err :
  Journal.announcements (baseFailedLog fid err) = [].
Proof. unfold Journal.baseFailedLog. by destruct (formatError err). Qed.

Lemma processRow_announcements defLocale locales st row :
  ∃ cs,
    calls (remote (processRow defLocale locales st row).2)
      = calls (remote st) ++ cs ∧
    Journal.announcements (processRowLog defLocale locales st row)
      = Journal.announce <$> cs.
Proof.
  unfold Sync.processRow, Journal.processRowLog.
  destruct (nonEmpty (cell row "feature_id")) as [fid|].
  2:{ exists []. by rewrite app_nil_r. }
  destruct (nonEmpty (cell row defLocale)) as [name|].
  2:{ exists []. by rewrite app_nil_r. }
  assert (∀ err r cs,
            calls r = calls (remote st) ++ cs →
            calls (remote (baseFailed defLocale row fid err
                             (withRemote W r st)).2)
              = calls (remote st) ++ cs) as Hfailed.
  { intros err r cs Hr. rewrite baseFailed_cases.
    by destruct (formatError err). }
  assert (∀ d e r cs,
            calls r = calls (remote st) ++ cs →
            ∃ sent,
              calls (remote (upsertLocales locales row fid d
                               (pushSuccess W e (withRemote W r st))).2)
                = calls (remote st) ++ cs ++ sent ∧
              Journal.announcements
                (localesLog row fid d (pushSuccess W e (withRemote W r st))
                   locales)
                = Journal.announce <$> sent) as Hok.
  { intros d e r cs Hr. unfold Sync.upsertLocales.
    match goal with |- context [forOf ?g ?s ?l] =>
      destruct (localesLog_announcements row fid d l s) as (sent & Hc & Hlog);
      destruct (forOf g s l) as [[[]|t] st']
    end; exists sent; simpl in *; by rewrite Hc, Hr, <- app_assoc. }
  unfold Sync.findDocumentByFeatureId.
  destruct (client_get fid (world (remote st))) as [[found|err] w1].
  2:{ eexists. split; [by apply Hfailed|].
      change (?a :: ?b :: ?l) with ([a; b] ++ l).
      by rewrite announcements_app, baseFailedLog_announcements. }
  destruct (head (data found)) as [existing|].
  - change (Sync.upsertLocaleVersion W client_put ?d defLocale name ?r)
      with (let '(res, w) := client_put d defLocale name (world r) in
            (res, {| world := w;
                     calls := calls r ++ [PUT_pro_features d defLocale name] |})).
    simpl world.
    destruct (client_put _ _ _ w1) as [[updated|err] w2].
    + edestruct Hok as (sent & Hc & Hlog); [|eexists; split; [exact Hc|]].
      { simpl. by rewrite <- app_assoc. }
      change (?a :: ?b :: ?c :: ?d :: ?l) with ([a; b; c; d] ++ l).
      rewrite announcements_app, Hlog, fmap_app. done.
    + eexists. split; [apply Hfailed; simpl; by rewrite <- app_assoc|].
      change (?a :: ?b :: ?c :: ?d :: ?l) with ([a; b; c; d] ++ l).
      by rewrite announcements_app, baseFailedLog_announcements.
  - unfold Sync.createBaseDocument. simpl world.
    destruct (client_post _ _ _ w1) as [[created|err] w2].
    + edestruct Hok as (sent & Hc & Hlog); [|eexists; split; [exact Hc|]].
      { simpl. by rewrite <- app_assoc. }
      change (?a :: ?b :: ?c :: ?d :: ?l) with ([a; b; c; d] ++ l).
      rewrite announcements_app, Hlog, fmap_app. done.
    + eexists. split; [apply Hfailed; simpl; by rewrite <- app_assoc|].
      change (?a :: ?b :: ?c :: ?d :: ?l) with ([a; b; c; d] ++ l).
      by rewrite announcements_app, baseFailedLog_announcements.
Qed.

Lemma processRows_announcements defLocale locales records st :
  ∃ cs,
    calls (remote (processRows defLocale locales st records).2)
      = calls (remote st) ++ cs ∧
    Journal.announcements (processRowsLog defLocale locales st records)
      = Journal.announce <$> cs.
Proof.
  revert st. induction records as [|row records IH]; intros st.
  - exists []. by rewrite app_nil_r.
  - destruct (processRow_announcements defLocale locales st row)
      as (cs1 & Hcs1 & Hlog1).
    cbn [Journal.processRowsLog]. unfold Sync.processRows in *. simpl forOf.
    rewrite announcements_app, Hlog1.
    destruct (processRow defLocale locales st row) as [[[]|t] st1].
    + destruct (IH st1) as (cs2 & Hcs2 & Hlog2).
      exists (cs1 ++ cs2). rewrite Hlog2, fmap_app.
      split; [|done]. simpl in *. by rewrite Hcs2, Hcs1, app_assoc.
    + exists cs1. by rewrite app_nil_r.
Qed.

(** X13: every request is announced in the log, and nothing else looks like
    an announcement: the messages of the log of [processCsv] that begin as
    the client's [GET], [POST] and [PUT] lines are, in order, the lines of
    the requests of the run. *)
Theorem requests_are_announced absPath reportFile file disk r :
  ∃ cs,
    calls (processCsv file disk r).2 = calls r ++ cs ∧
    Journal.announcements (processCsvLog absPath reportFile file disk r)
      = Journal.announce <$> cs.
Proof.
  destruct file as [|err|columns [|first rest]];
    try (exists []; by rewrite app_nil_r).
  destruct (headersRejected (Object_keys first)) eqn:Hhead.
  { unfold Sync.processCsv, Journal.processCsvLog. rewrite Hhead.
    exists []. by rewrite app_nil_r. }
  rewrite (processCsv_remote _ _ _ _ _ Hhead).
  unfold Journal.processCsvLog. rewrite Hhead. cbv zeta.
  match goal with |- context [processRows ?d ?l ?s ?rs] =>
    destruct (processRows_announcements d l rs s) as (cs & Hcs & Hlog)
  end.
  exists cs. split; [done|].
  change (?a :: ?l) with ([a] ++ l).
  rewrite !announcements_app, Hlog.
  destruct (processCsv _ _ _).1; cbn; by rewrite app_nil_r.
Qed.

Lemma countLevel_app level log1 log2 :
  Journal.countLevel level (log1 ++ log2)
  = Journal.countLevel level log1 + Journal.countLevel level log2.
Proof. unfold Journal.countLevel. by rewrite List.filter_app, length_app. Qed.

Lemma countLevel_cons_info level msg log :
  level ≠ Logger.info →
  Journal.countLevel level ((Logger.info, msg) :: log)
  = Journal.countLevel level log.
Proof.
  intros Hne. unfold Journal.countLevel. simpl.
  rewrite bool_decide_eq_false_2; [done|]. by intros <-.
Qed.

Lemma localesLog_levels row fid d locales st st' :
  forOf (upsertLocaleStep row fid d) st locales = (Normal (), st') →
  ∃ df,
    failures (report st') = failures (report st) ++ df ∧
    Forall (fun f => ReportEntryFailure.row f = row) df ∧
    Journal.countLevel Logger.warn (localesLog row fid d st locales) = 0 ∧
    Journal.countLevel Logger.error (localesLog row fid d st locales)
      = length df.
Proof.
  revert st. induction locales as [|l locales IH]; intros st.
  - intros [= <-]. exists []. by rewrite app_nil_r.
  - simpl forOf. cbn [Journal.localesLog].
    rewrite !countLevel_app, upsertLocaleStepLog_cases, upsertLocaleStep_cases.
    destruct (nonEmpty (cell row l)) as [n|].
    2:{ intros Hrest. destruct (IH _ Hrest) as (df & Hf & Hrow & Hw & He).
        exists df. rewrite Hw, He. by split_and!. }
    destruct (client_put d l n (world (remote st))) as [[v|err] w];
      cbn [fst snd]; cbv zeta.
    + intros Hrest. destruct (IH _ Hrest) as (df & Hf & Hrow & Hw & He).
      exists df. rewrite Hw, He. by split_and!.
    + destruct (formatError err) as [msg|t]; [|done].
      intros Hrest. destruct (IH _ Hrest) as (df & Hf & Hrow & Hw & He).
      eexists (_ :: df). rewrite Hw, He, Hf. simpl. rewrite <- app_assoc.
      split_and!; try done. by constructor.
Qed.

Lemma filter_row_failures defLocale row (df : list ReportEntryFailure.t) :
  Forall (fun f => ReportEntryFailure.row f = row) df →
  List.filter (isCheckFailure defLocale) df
    = (if passesChecks defLocale row then [] else df) ∧
  List.filter (isRemoteFailure defLocale) df
    = (if passesChecks defLocale row then df else []).
Proof.
  induction 1 as [|f df Hf _ [IH1 IH2]]; [by destruct (passesChecks _ _)|].
  simpl. unfold isCheckFailure at 1, isRemoteFailure at 1.
  rewrite Hf, IH1, IH2. by destruct (passesChecks defLocale row).
Qed.

Lemma processRow_levels defLocale locales st row st' :
  processRow defLocale locales st row = (Normal (), st') →
  ∃ df,
    failures (report st') = failures (report st) ++ df ∧
    Journal.countLevel Logger.warn (processRowLog defLocale locales st row)
      = length (List.filter (isCheckFailure defLocale) df) ∧
    Journal.countLevel Logger.error (processRowLog defLocale locales st row)
      = length (List.filter (isRemoteFailure defLocale) df).
Proof.
  unfold Sync.processRow, Journal.processRowLog.
  destruct (nonEmpty (cell row "feature_id")) as [fid|] eqn:Hid.
  2:{ intros [= <-]. eexists [_]. split; [done|]. simpl.
      unfold isCheckFailure, isRemoteFailure. simpl.
      by rewrite (passesChecks_false_id _ _ Hid). }
  destruct (nonEmpty (cell row defLocale)) as [name|] eqn:Hname.
  2:{ intros [= <-]. eexists [_]. split; [done|]. simpl.
      unfold isCheckFailure, isRemoteFailure. simpl.
      by rewrite (passesChecks_false_name _ _ Hname). }
  pose proof (passesChecks_true _ _ _ _ Hid Hname) as Hpass.
  assert (∀ err s,
            failures (report s) = failures (report st) →
            baseFailed defLocale row fid err s = (Normal (), st') →
            ∃ df,
              failures (report st') = failures (report st) ++ df ∧
              Journal.countLevel Logger.warn (baseFailedLog fid err)
                = length (List.filter (isCheckFailure defLocale) df) ∧
              Journal.countLevel Logger.error (baseFailedLog fid err)
                = length (List.filter (isRemoteFailure defLocale) df))
    as Hfailed.
  { intros err s Hs. rewrite baseFailed_cases. unfold Journal.baseFailedLog.
    destruct (formatError err) as [msg|t]; [|done].
    intros [= <-]. eexists [_]. simpl. rewrite Hs. split; [done|].
    unfold isCheckFailure, isRemoteFailure. simpl. by rewrite Hpass. }
  assert (∀ d e s,
            failures (report s) = failures (report st) →
            upsertLocales locales row fid d (pushSuccess W e s)
              = (Normal (), st') →
            ∃ df,
              failures (report st') = failures (report st) ++ df ∧
              Journal.countLevel Logger.warn
                (localesLog row fid d (pushSuccess W e s) locales)
                = length (List.filter (isCheckFailure defLocale) df) ∧
              Journal.countLevel Logger.error
                (localesLog row fid d (pushSuccess W e s) locales)
                = length (List.filter (isRemoteFailure defLocale) df))
    as Hok.
  { intros d e s Hs. unfold Sync.upsertLocales.
    destruct (forOf _ (pushSuccess W e s) locales) as [[[]|t] s'] eqn:Hloop;
      [|done].
    intros [= <-].
    destruct (localesLog_levels row fid d locales _ _ Hloop)
      as (df & Hf & Hrow & Hw & He).
    exists df. simpl in *. rewrite Hf, Hs, Hw, He.
    destruct (filter_row_failures defLocale row df Hrow) as [-> ->].
    rewrite Hpass. by split_and!. }
  unfold Sync.findDocumentByFeatureId.
  destruct (client_get fid (world (remote st))) as [[found|err] w1].
  2:{ change (?a :: ?b :: ?l) with ([a; b] ++ l). rewrite !countLevel_app.
      by apply Hfailed. }
  destruct (head (data found)) as [existing|].
  - change (Sync.upsertLocaleVersion W client_put ?d defLocale name ?r)
      with (let '(res, w) := client_put d defLocale name (world r) in
            (res, {| world := w;
                     calls := calls r ++ [PUT_pro_features d defLocale name] |})).
    simpl world.
    destruct (client_put _ _ _ w1) as [[updated|err] w2];
      change (?a :: ?b :: ?c :: ?d :: ?l) with ([a; b; c; d] ++ l);
      rewrite !countLevel_app; [by apply Hok|by apply Hfailed].
  - unfold Sync.createBaseDocument. simpl world.
    destruct (client_post _ _ _ w1) as [[created|err] w2];
      change (?a :: ?b :: ?c :: ?d :: ?l) with ([a; b; c; d] ++ l);
      rewrite !countLevel_app; [by apply Hok|by apply Hfailed].
Qed.

Lemma processRows_levels defLocale locales records st st' :
  processRows defLocale locales st records = (Normal (), st') →
  ∃ df,
    failures (report st') = failures (report st) ++ df ∧
    Journal.countLevel Logger.warn (processRowsLog defLocale locales st records)
      = length (List.filter (isCheckFailure defLocale) df) ∧
    Journal.countLevel Logger.error (processRowsLog defLocale locales st records)
      = length (List.filter (isRemoteFailure defLocale) df).
Proof.
  revert st. induction records as [|row records IH]; intros st.
  - intros [= <-]. exists []. by rewrite app_nil_r.
  - unfold Sync.processRows in *.
    intros (st1 & Hrow & Hrest)%forOf_normal_cons.
    destruct (processRow_levels _ _ _ _ _ Hrow) as (df1 & Hf1 & Hw1 & He1).
    destruct (IH _ Hrest) as (df2 & Hf2 & Hw2 & He2).
    exists (df1 ++ df2). cbn [Journal.processRowsLog]. rewrite Hrow.
    rewrite !countLevel_app, Hw1, He1, Hw2, He2, !List.filter_app, !length_app.
    split; [|done]. by rewrite Hf2, Hf1, app_assoc.
Qed.

Local Abbreviation mainLog :=
  (Journal.mainLog W client_get client_post client_put JSON_stringify String_).
Local Abbreviation runLog :=
  (Journal.runLog W client_get client_post client_put JSON_stringify String_).

(** X14: in the log of a run that writes its report, the errors are as many
    as the failures of rows that passed the presence checks, which are the
    failures the remote side caused; the warnings are as many as the
    failures of rows that failed a check, and two more when no token is
    set: the warning of the client, when it is loaded, and that of
    [main]. *)
Theorem log_levels_match_failures
    csvPath token resolve reportFile fs disk r p columns records rep r' :
  nonEmpty csvPath = Some p →
  fs p = Parsed columns records →
  processCsv (Parsed columns records) disk r = (ReportWritten rep, r') →
  Journal.countLevel Logger.warn
    (runLog csvPath token resolve reportFile fs disk r)
    = match nonEmpty token with Some _ => 0 | None => 2 end
      + length (List.filter (isCheckFailure (defaultLocale rep)) (failures rep)) ∧
  Journal.countLevel Logger.error
    (runLog csvPath token resolve reportFile fs disk r)
    = length (List.filter (isRemoteFailure (defaultLocale rep)) (failures rep)).
Proof.
  intros Hpath Hfs Hrun.
  destruct (written_report _ _ _ _ _ _ Hrun) as (_ & _ & _ & _ & _ & Hd & _).
  pose proof Hrun as (Hne & Hhead & st & Hst & _ & -> & _)%processCsv_report.
  apply stateAt_all in Hst.
  unfold Journal.runLog, Journal.mainLog, Journal.clientLoadLog.
  rewrite Hpath, Hfs, Hrun. cbn [fst]. rewrite app_nil_r.
  unfold Journal.processCsvLog. rewrite Hrun. cbn [fst].
  destruct records as [|first rest]; [done|].
  unfold defaultLocaleOf, otherLocalesOf in *.
  change (default [] (head (first :: rest))) with first in *.
  rewrite Hhead. cbv zeta.
  destruct (processRows_levels _ _ _ _ _ Hst) as (df & Hf & Hw & He).
  change (?a :: ?l ++ ?k) with ([a] ++ l ++ k).
  rewrite !countLevel_app, Hw, He, Hf, Hd.
  cbn [failures report initialReport app].
  destruct (nonEmpty token); unfold Journal.countLevel;
    cbn [List.filter length bool_decide decide_rel fst]; simpl; split; lia.
Qed.

(** *** Further properties: the size of the report, the end of the log *)

Lemma processRow_entry_count defLocale locales st row st' :
  processRow defLocale locales st row = (Normal (), st') →
  ∃ ds df,
    successes (report st') = successes (report st) ++ ds ∧
    failures (report st') = failures (report st) ++ df ∧
    1 ≤ length ds + length df ≤ 1 + length locales.
Proof.
  rewrite processRow_baseStep.
  destruct (nonEmpty (cell row "feature_id")) as [fid|].
  2:{ intros [= <-]. eexists [], [_]. simpl. rewrite app_nil_r.
      split_and!; [done..|lia|lia]. }
  destruct (nonEmpty (cell row defLocale)) as [name|].
  2:{ intros [= <-]. eexists [], [_]. simpl. rewrite app_nil_r.
      split_and!; [done..|lia|lia]. }
  destruct (baseStep defLocale fid name (remote st)) as [[a d n|err] r].
  2:{ rewrite baseFailed_cases. destruct (formatError err); [|done].
      intros [= <-]. eexists [], [_]. simpl. rewrite app_nil_r.
      split_and!; [done..|lia|lia]. }
  unfold Sync.upsertLocales.
  match goal with |- context [forOf ?f ?s ?l] =>
    destruct (localeLoop_effect row fid d l s)
      as (ds & df & sent & Hs & Hf & _ & _ & _ & _ & _ & _ & _ & _ & _ & Hend);
    destruct (forOf f s l) as [[[]|t] s']
  end; [|done].
  intros [= <-]. destruct (Hend eq_refl) as [_ Hlen].
  simpl in *. rewrite <- app_assoc in Hs. simpl in Hs.
  eexists (_ :: ds), df. split_and!; [done..| |].
  - simpl. lia.
  - simpl. pose proof (length_filter (fun l => is_Some (nonEmpty (cell row l)))
                         locales) as Hle.
    unfold filled in Hlen. lia.
Qed.

Lemma processRows_entry_count defLocale locales records st st' :
  processRows defLocale locales st records = (Normal (), st') →
  length records
    ≤ length (successes (report st')) + length (failures (report st'))
      - (length (successes (report st)) + length (failures (report st)))
    ≤ length records * (1 + length locales) ∧
  length (successes (report st)) + length (failures (report st))
    ≤ length (successes (report st')) + length (failures (report st')).
Proof.
  revert st. induction records as [|row records IH]; intros st.
  - intros [= <-]. simpl. lia.
  - unfold Sync.processRows in *.
    intros (st1 & Hrow & Hrest)%forOf_normal_cons.
    destruct (processRow_entry_count _ _ _ _ _ Hrow)
      as (ds & df & Hs & Hf & Hlen).
    specialize (IH _ Hrest).
    rewrite Hs, Hf, !length_app in IH. cbn [length]. nia.
Qed.

(** X16: a written report holds at least one entry per record and at most
    one entry per record and column other than [feature_id], successes and
    failures together. *)
Theorem report_size_bounds columns records disk r rep r' :
  processCsv (Parsed columns records) disk r = (ReportWritten rep, r') →
  length records
    ≤ length (successes rep) + length (failures rep)
    ≤ length records * (1 + length (otherLocales rep)).
Proof.
  intros Hrun.
  destruct (written_report _ _ _ _ _ _ Hrun) as (_ & _ & _ & _ & _ & _ & ->).
  apply processCsv_report in Hrun as (_ & _ & st & Hst & _ & -> & _).
  apply stateAt_all, processRows_entry_count in Hst.
  simpl in Hst. lia.
Qed.

(** The handler of [main] logs the message of the Error it is given. *)
Lemma fatalLog_error message props :
  Journal.fatalLog String_ (JError message props)
  = [(Logger.error, "Fatal error: " +:+ message)].
Proof. done. Qed.

(** X15: the process ends with exit code 1 exactly when the last message it
    logs is an error (usage, file not found, rejected header, fatal error);
    with exit code 0 the last message is not an error. *)
Theorem fatal_exit_is_logged
    csvPath token resolve reportFile fs disk r code r' :
  main csvPath fs disk r = (code, r') →
  code = 1%Z ↔
  ∃ msg,
    last (mainLog csvPath token resolve reportFile fs disk r)
    = Some (Logger.error, msg).
Proof.
  unfold Sync.main, Journal.mainLog.
  destruct (nonEmpty csvPath) as [p|].
  2:{ intros [= <- _]. split; [eauto|done]. }
  pose proof (processCsv_cases (fs p) disk r) as Hcases.
  unfold Journal.processCsvLog.
  destruct (fs p) as [|message|columns [|first rest]].
  - rewrite Hcases. intros [= <- _].
    rewrite app_nil_r, last_app. simpl. split; [eauto|done].
  - rewrite Hcases. intros [= <- _]. cbn [fst app].
    rewrite fatalLog_error, last_snoc. split; [eauto|done].
  - rewrite Hcases. intros [= <- _]. rewrite app_nil_r, last_app. simpl.
    split; [done|]. by intros (? & [=]).
  - destruct (headersRejected (Object_keys first)).
    { rewrite Hcases. intros [= <- _].
      rewrite app_nil_r, last_app. simpl. split; [eauto|done]. }
    cbv zeta.
    destruct (stateAt _ _ _) as [st|].
    + destruct (writeReport disk (report st)) as [[]|t].
      * rewrite Hcases. intros [= <- _]. cbn [fst].
        rewrite app_nil_r, last_app, last_cons, last_app. cbn [last].
        split; [done|]. by intros (? & [=]).
      * destruct Hcases as (-> & message & ->). intros [= <- _]. cbn [fst].
        rewrite fatalLog_error, app_nil_r, app_assoc, last_snoc.
        split; [eauto|done].
    + destruct Hcases as (st & ->). intros [= <- _]. cbn [fst].
      unfold typeError.
      rewrite fatalLog_error, app_nil_r, app_assoc, last_snoc.
      split; [eauto|done].
Qed.

End Facts.

(** ** The logger and the file names *)

Lemma append_assoc (a b c : string) : (a +:+ b) +:+ c = a +:+ b +:+ c.
Proof.
  induction a as [|x a IH]; [done|].
  change (String x ((a +:+ b) +:+ c) = String x (a +:+ b +:+ c)). by f_equal.
Qed.

Lemma append_empty_r (a : string) : a +:+ "" = a.
Proof.
  induction a as [|x a IH]; [done|].
  change (String x (a +:+ "") = String x a). by f_equal.
Qed.

(** X11: the log file mirrors the console.  A sequence of calls of the logger
    adds one line per call to the console, on the standard output for [info]
    and on the standard error for [warn] and [error], and appends the same
    lines, each followed by a line feed, to the file, in the order of the
    calls; what was there before stays. *)
Theorem log_file_mirrors_console calls s :
  Logger.console (Logger.logAll calls s)
    = Logger.console s ++
      ((fun c => (Logger.streamOf c.1.1, Logger.format c.1.1 c.1.2 c.2))
         <$> calls) ∧
  Logger.logFile (Logger.logAll calls s)
    = Logger.logFile s +:+
      foldr (fun c rest => Logger.format c.1.1 c.1.2 c.2 +:+ Logger.newline +:+ rest)
        "" calls.
Proof.
  revert s. induction calls as [|c calls IH]; intros s.
  - simpl. by rewrite app_nil_r, append_empty_r.
  - unfold Logger.logAll in *. simpl foldl.
    destruct (IH (Logger.log c.1.1 c.1.2 c.2 s)) as [-> ->].
    simpl. rewrite <- app_assoc, !append_assoc. done.
Qed.

Lemma occurrences_append c (a b : string) :
  occurrences c (a +:+ b) = occurrences c a + occurrences c b.
Proof.
  induction a as [|x a IH]; [done|].
  change (occurrences c (String x (a +:+ b))
          = occurrences c (String x a) + occurrences c b).
  cbn [occurrences]. rewrite IH. lia.
Qed.

Lemma length_append (a b : string) :
  String.length (a +:+ b) = String.length a + String.length b.
Proof.
  induction a as [|x a IH]; [done|].
  change (S (String.length (a +:+ b)) = S (String.length a + String.length b)).
  by f_equal.
Qed.

Lemma replaceColonDot_occurrences s :
  occurrences Logger.colon (Logger.replaceColonDot s) = 0 ∧
  occurrences Logger.dot (Logger.replaceColonDot s) = 0.
Proof.
  induction s as [|c s [IH1 IH2]]; [done|].
  simpl. rewrite IH1, IH2.
  destruct (decide (c = Logger.colon ∨ c = Logger.dot)) as [_|Hne].
  - done.
  - rewrite !decide_False by tauto. done.
Qed.

Lemma replaceColonDot_length s :
  String.length (Logger.replaceColonDot s) = String.length s.
Proof. induction s as [|c s IH]; [done|]. simpl. by rewrite IH. Qed.

(** X12: whatever the timestamp, the names of the log file and of the report
    file hold no colon and one dot, that of the extension; the timestamp
    keeps its length. *)
Theorem file_names_are_safe iso :
  occurrences Logger.colon (Logger.logFileName iso) = 0 ∧
  occurrences Logger.dot (Logger.logFileName iso) = 1 ∧
  occurrences Logger.colon (reportFileName iso) = 0 ∧
  occurrences Logger.dot (reportFileName iso) = 1 ∧
  String.length (Logger.logFileName iso) = 21 + String.length iso ∧
  String.length (reportFileName iso) = 29 + String.length iso.
Proof.
  unfold Logger.logFileName, reportFileName.
  rewrite !occurrences_append.
  destruct (replaceColonDot_occurrences iso) as [-> ->].
  split_and!; try done.
  - rewrite !length_append, replaceColonDot_length. simpl. lia.
  - rewrite !length_append, replaceColonDot_length. simpl. lia.
Qed.

(** ** The collection in memory obeys the laws of the remote side *)

Lemma memory_discoverable rejects w f :
  rejects (GET_pro_features f) = None →
  Discoverable (Memory.get rejects) w f ↔
  List.filter (Memory.hasFeature f) w ≠ [].
Proof.
  intros Hget. unfold Discoverable, Memory.get. rewrite Hget. split.
  - intros (doc & docs & m & w' & [= Htake _ _]) Hnil.
    by rewrite Hnil in Htake.
  - destruct (List.filter (Memory.hasFeature f) w) as [|x xs]; [done|].
    intros _. by exists x, [], Memory.onePage, w.
Qed.

(** Whatever writes the server turns down, as long as it answers the
    lookups: what was created is found, and nothing disappears. *)
Lemma memory_discovery rejects :
  (∀ f, rejects (GET_pro_features f) = None) →
  DiscoveryLaws (Memory.get rejects) (Memory.post rejects) (Memory.put rejects).
Proof.
  intros Hget. split.
  - intros f n l w doc w'. unfold Memory.post.
    destruct (rejects (POST_pro_features f n l)); [done|].
    intros [= <- <-]. apply memory_discoverable; [done|].
    rewrite List.filter_app. simpl. unfold Memory.hasFeature at 2. simpl.
    rewrite bool_decide_eq_true_2 by done.
    intros [_ ?]%app_eq_nil. discriminate.
  - intros f g w HD. unfold Memory.get at 2. by rewrite Hget.
  - intros f g n l w HD%memory_discoverable; [|done].
    apply memory_discoverable; [done|]. unfold Memory.post.
    destruct (rejects (POST_pro_features g n l)); [done|].
    simpl. rewrite List.filter_app. by intros [? _]%app_eq_nil.
  - intros f d l n w HD%memory_discoverable; [|done].
    apply memory_discoverable; [done|]. unfold Memory.put.
    destruct (rejects (PUT_pro_features d l n)); [done|].
    destruct (List.find (Memory.hasDocument d) w); simpl; [|done].
    rewrite List.filter_app. by intros [? _]%app_eq_nil.
Qed.

Lemma memory_laws :
  RemoteLaws (Memory.get Memory.reliable) (Memory.post Memory.reliable)
    (Memory.put Memory.reliable).
Proof.
  split; [by apply memory_discovery|].
  intros f w res doc w' l n [= <- <-] Hhead. simpl in Hhead.
  unfold Memory.put. simpl.
  destruct (List.find _ w) as [x|] eqn:Hfind; [eauto|].
  exfalso.
  assert (In doc w) as Hin.
  { destruct (List.filter (Memory.hasFeature f) w) as [|y ys] eqn:Hfilter;
      [done|].
    injection Hhead as ->.
    assert (In doc (List.filter (Memory.hasFeature f) w)) as Hin
      by (rewrite Hfilter; by left).
    by apply List.filter_In in Hin as [? _]. }
  apply (List.find_none _ _ Hfind) in Hin.
  unfold Memory.hasDocument in Hin.
  by rewrite bool_decide_eq_true_2 in Hin.
Qed.

(** ** The claims on concrete runs *)

(** The run of C1: the collection already holds [F1] and the server refuses
    the update of its default locale. *)
Example update_failure_run :
  Memory.run Memory.readOnly (Parsed scenarioHeader [rowF1]) storedF1 =
  (ReportWritten
     {| defaultLocale := "en";
        otherLocales := ["vi"];
        processedRows := 0;
        successes := [];
        failures :=
          [ReportEntryFailure.mk "F1" "en" create_base
             (Some "ForbiddenError: Forbidden") rowF1] |},
   {| world := storedF1;
      calls := [GET_pro_features "F1"; PUT_pro_features "doc-F1" "en" "Hello"] |}).
Proof. reflexivity. Qed.

Lemma update_failure_recorded_as_create_base_witness :
  Memory.row Memory.readOnly "en" ["vi"] (Memory.fresh "en" ["vi"] storedF1) rowF1
  = (Normal (),
     pushFailure Memory.W
       (ReportEntryFailure.mk "F1" "en" create_base
          (Some "ForbiddenError: Forbidden") rowF1)
       (withRemote Memory.W
          {| world := storedF1;
             calls := [GET_pro_features "F1";
                       PUT_pro_features "doc-F1" "en" "Hello"] |}
          (Memory.fresh "en" ["vi"] storedF1))).
Proof.
  exact (update_failure_recorded_as_create_base
           (Memory.get Memory.readOnly) (Memory.post Memory.readOnly)
           (Memory.put Memory.readOnly) Builtins.stringify Builtins.toString
           "en" ["vi"] (Memory.fresh "en" ["vi"] storedF1) rowF1 "F1" "Hello"
           (ProFeature.mk 1 "doc-F1" "F1" "Hello" "" "" None "en")
           {| world := storedF1; calls := [GET_pro_features "F1"] |}
           Memory.forbidden
           {| world := storedF1;
              calls := [GET_pro_features "F1";
                        PUT_pro_features "doc-F1" "en" "Hello"] |}
           eq_refl eq_refl eq_refl eq_refl).
Defined.

(** C2 as stated fails: both rows of the scenario pass the two checks, the
    server cannot be reached, and [processedRows] is 0. *)
Lemma processedRows_misses_failed_base_steps :
  ∃ rep rem,
    Memory.run Memory.unreachable (Parsed scenarioHeader scenario) []
      = (ReportWritten rep, rem) ∧
    length (List.filter (passesChecks (defaultLocale rep)) scenario) = 2 ∧
    processedRows rep = 0 ∧
    processedRows rep
      ≠ length (List.filter (passesChecks (defaultLocale rep)) scenario).
Proof. eexists _, _. split; [vm_compute; reflexivity|]. by split_and!. Qed.

Lemma processedRows_counts_completed_rows_witness :
  ∃ rep rem,
    Memory.run Memory.unreachable (Parsed scenarioHeader scenario) []
      = (ReportWritten rep, rem) ∧
    processedRows rep = length (List.filter isBaseSuccess (successes rep)) ∧
    processedRows rep
      + length (List.filter (isRemoteBaseFailure (defaultLocale rep)) (failures rep))
    = length (List.filter (passesChecks (defaultLocale rep)) scenario).
Proof.
  eexists _, _. split; [vm_compute; reflexivity|].
  eapply (processedRows_counts_completed_rows
            (Memory.get Memory.unreachable) (Memory.post Memory.unreachable)
            (Memory.put Memory.unreachable) Builtins.stringify Builtins.toString
            scenarioHeader scenario writable (Memory.start [])).
  reflexivity.
Defined.

(** The run of C3, C4 and C9: the server answers the lookup of [F1] with an
    error response whose body holds an object where the name of the error
    should be.  [formatError] throws in the handler of step 1: nothing is
    recorded, the second record is not processed, no report is written and
    the process ends with code 1. *)
Example unformattable_error_run :
  formatError Builtins.stringify Builtins.toString Memory.garbled
    = Throw typeError ∧
  Memory.run Memory.garbling (Parsed scenarioHeader scenario) []
    = (Rejected typeError,
       {| world := []; calls := [GET_pro_features "F1"] |}) ∧
  main Memory.W (Memory.get Memory.garbling) (Memory.post Memory.garbling)
    (Memory.put Memory.garbling) Builtins.stringify Builtins.toString
    (Some "features.csv") (fun _ => Parsed scenarioHeader scenario) writable
    (Memory.start [])
    = (1%Z, {| world := []; calls := [GET_pro_features "F1"] |}).
Proof. by split_and!. Qed.

(** The same body as the answer to the update of the locale [vi]:
    [formatError] throws in the handler of the loop over the locales.  [F1]
    was created, and its success is lost with the report. *)
Example unformattable_locale_error_run :
  Memory.run Memory.garblingVi (Parsed scenarioHeader scenario) []
    = (Rejected typeError,
       {| world := [ProFeature.mk 1 "doc-F1" "F1" "Hello" "" "" None "en"];
          calls := [GET_pro_features "F1";
                    POST_pro_features "F1" "Hello" "en";
                    PUT_pro_features "doc-F1" "vi" "Xin chao"] |}).
Proof. reflexivity. Qed.

Lemma one_base_entry_per_checked_row_witness :
  Memory.row Memory.garbling "en" ["vi"] (Memory.fresh "en" ["vi"] []) rowF1
  = (Throw typeError,
     withRemote Memory.W
       {| world := []; calls := [GET_pro_features "F1"] |}
       (Memory.fresh "en" ["vi"] [])).
Proof.
  apply (proj1 (one_base_entry_per_checked_row
                  (Memory.get Memory.garbling) (Memory.post Memory.garbling)
                  (Memory.put Memory.garbling) Builtins.stringify
                  Builtins.toString "en" ["vi"] (Memory.fresh "en" ["vi"] [])
                  rowF1 "F1" "Hello" eq_refl eq_refl)
           Memory.garbled).
  - left. reflexivity.
  - reflexivity.
Defined.

Lemma base_failure_skips_locales_witness :
  successes (report (Memory.row Memory.garbling "en" ["vi"]
                       (Memory.fresh "en" ["vi"] []) rowF1).2) = [] ∧
  remote (Memory.row Memory.garbling "en" ["vi"]
            (Memory.fresh "en" ["vi"] []) rowF1).2
    = {| world := []; calls := [GET_pro_features "F1"] |} ∧
  processedRows (report (Memory.row Memory.garbling "en" ["vi"]
                           (Memory.fresh "en" ["vi"] []) rowF1).2) = 0 ∧
  failures (report (Memory.row Memory.garbling "en" ["vi"]
                      (Memory.fresh "en" ["vi"] []) rowF1).2) = [] ∧
  processRows Memory.W (Memory.get Memory.garbling)
    (Memory.post Memory.garbling) (Memory.put Memory.garbling)
    Builtins.stringify Builtins.toString "en" ["vi"]
    (Memory.fresh "en" ["vi"] []) [rowF1; rowF2]
  = (Throw typeError,
     withRemote Memory.W
       {| world := []; calls := [GET_pro_features "F1"] |}
       (Memory.fresh "en" ["vi"] [])).
Proof.
  exact (base_failure_skips_locales
           (Memory.get Memory.garbling) (Memory.post Memory.garbling)
           (Memory.put Memory.garbling) Builtins.stringify Builtins.toString
           "en" ["vi"] (Memory.fresh "en" ["vi"] []) rowF1 "F1" "Hello"
           Memory.garbled {| world := []; calls := [GET_pro_features "F1"] |}
           [rowF2] eq_refl eq_refl (or_introl eq_refl)).
Defined.

Lemma empty_locale_cell_is_skipped_witness :
  ∃ ds df cs,
    successes (report (Memory.row Memory.reliable "en" ["vi"]
                         (Memory.fresh "en" ["vi"] []) rowF2).2)
      = successes (report (Memory.fresh "en" ["vi"] [])) ++ ds ∧
    failures (report (Memory.row Memory.reliable "en" ["vi"]
                        (Memory.fresh "en" ["vi"] []) rowF2).2)
      = failures (report (Memory.fresh "en" ["vi"] [])) ++ df ∧
    calls (remote (Memory.row Memory.reliable "en" ["vi"]
                     (Memory.fresh "en" ["vi"] []) rowF2).2)
      = calls (remote (Memory.fresh "en" ["vi"] [])) ++ cs ∧
    Forall (fun e => ReportEntrySuccess.locale e ≠ "vi") ds ∧
    Forall (fun f => ReportEntryFailure.locale f ≠ "vi") df ∧
    Forall (fun q => requestLocale q ≠ Some "vi") cs.
Proof.
  apply (empty_locale_cell_is_skipped _ _ _ _ _ ["feature_id"; "en"; "vi"]
           (Memory.fresh "en" ["vi"] []) rowF2 "vi").
  - by apply (bool_decide_unpack _).
  - simpl. by left.
  - reflexivity.
Defined.

Lemma missing_feature_id_recorded_witness :
  (Memory.row Memory.reliable "en" ["vi"]
     (Memory.fresh "en" ["vi"] []) rowAnonymous).1 = Normal () ∧
  successes (report (Memory.row Memory.reliable "en" ["vi"]
                       (Memory.fresh "en" ["vi"] []) rowAnonymous).2)
    = successes (report (Memory.fresh "en" ["vi"] [])) ∧
  failures (report (Memory.row Memory.reliable "en" ["vi"]
                      (Memory.fresh "en" ["vi"] []) rowAnonymous).2)
    = failures (report (Memory.fresh "en" ["vi"] [])) ++
      [ReportEntryFailure.mk "" "en" create_base
         (Some "Missing feature_id") rowAnonymous] ∧
  remote (Memory.row Memory.reliable "en" ["vi"]
            (Memory.fresh "en" ["vi"] []) rowAnonymous).2
    = remote (Memory.fresh "en" ["vi"] []) ∧
  processedRows (report (Memory.row Memory.reliable "en" ["vi"]
                           (Memory.fresh "en" ["vi"] []) rowAnonymous).2)
    = processedRows (report (Memory.fresh "en" ["vi"] [])).
Proof.
  apply (missing_feature_id_recorded _ _ _ _ _ _ _ _ rowAnonymous).
  reflexivity.
Defined.

Lemma report_follows_csv_order_witness :
  ∃ rep rem,
    Memory.run Memory.reliable (Parsed scenarioHeader scenario) []
      = (ReportWritten rep, rem) ∧
    defaultLocale rep = defaultLocaleOf scenario ∧
    otherLocales rep = otherLocalesOf scenario ∧
    ∃ chunks,
      Forall2 (fun row c =>
                 RowSuccesses (defaultLocale rep) (otherLocales rep) row c.1 ∧
                 RowFailures (defaultLocale rep) (otherLocales rep) row c.2)
        scenario chunks ∧
      successes rep = concat chunks.*1 ∧
      failures rep = concat chunks.*2.
Proof.
  eexists _, _. split; [vm_compute; reflexivity|].
  eapply (report_follows_csv_order
            (Memory.get Memory.reliable) (Memory.post Memory.reliable)
            (Memory.put Memory.reliable) Builtins.stringify Builtins.toString
            scenarioHeader scenario writable (Memory.start [])).
  reflexivity.
Defined.



Lemma remote_errors_are_recorded_witness :
  Memory.run Memory.garbling (Parsed scenarioHeader scenario) []
    = (Rejected typeError,
       {| world := []; calls := [GET_pro_features "F1"] |}) ∧
  main Memory.W (Memory.get Memory.garbling) (Memory.post Memory.garbling)
    (Memory.put Memory.garbling) Builtins.stringify Builtins.toString
    (Some "features.csv") (fun _ => Parsed scenarioHeader scenario) writable
    (Memory.start [])
    = (1%Z, {| world := []; calls := [GET_pro_features "F1"] |}).
Proof.
  destruct (proj1 (proj2 (proj2 (proj2
              (remote_errors_are_recorded
                 (Memory.get Memory.garbling) (Memory.post Memory.garbling)
                 (Memory.put Memory.garbling) Builtins.stringify
                 Builtins.toString))))
              scenarioHeader scenario writable (Memory.start []) 0
              (Memory.fresh "en" ["vi"] []) rowF1 typeError
              (withRemote Memory.W
                 {| world := []; calls := [GET_pro_features "F1"] |}
                 (Memory.fresh "en" ["vi"] []))
              "features.csv" (fun _ => Parsed scenarioHeader scenario)
              eq_refl eq_refl eq_refl eq_refl)
    as [Hrun Hmain].
  split; [exact Hrun|]. apply Hmain; [discriminate|reflexivity].
Defined.

(** A header whose first column is not [feature_id] is fatal as soon as there
    is one record, and is not looked at when there is none. *)
Example malformed_header_with_a_record :
  headersRejected malformedHeader = true ∧
  Memory.run Memory.reliable
    (Parsed malformedHeader [[("id", "F1"); ("en", "Hello")]]) []
  = (Exited 1, Memory.start []).
Proof. by split. Qed.

Lemma empty_csv_returns_early_witness :
  main Memory.W (Memory.get Memory.reliable) (Memory.post Memory.reliable)
    (Memory.put Memory.reliable) Builtins.stringify Builtins.toString
    (Some "features.csv") (fun _ => Parsed malformedHeader []) writable
    (Memory.start [])
  = (0%Z, Memory.start []).
Proof.
  apply (proj2 (empty_csv_returns_early (Memory.get Memory.reliable)
                  (Memory.post Memory.reliable) (Memory.put Memory.reliable)
                  Builtins.stringify Builtins.toString malformedHeader
                  writable (Memory.start []))
           "features.csv" (fun _ => Parsed malformedHeader [])).
  - discriminate.
  - reflexivity.
Defined.

(** ** The further properties on concrete runs *)

Lemma stringify_undefined v : Builtins.stringify v = None ↔ v = JUndefined.
Proof. destruct v as [| |[|]| | | | |]; by split. Qed.

Lemma formatError_response_first_witness :
  formatError Builtins.stringify Builtins.toString Memory.forbidden
  = formatError Builtins.stringify Builtins.toString
      (JObj [("response",
              JObj [("data",
                     JObj [("error",
                            JObj [("name", JStr "ForbiddenError");
                                  ("message", JStr "Forbidden")])])])]).
Proof.
  apply (formatError_response_first Builtins.stringify Builtins.toString).
  reflexivity.
Defined.

Lemma formatError_undefined_witness :
  formatError Builtins.stringify Builtins.toString
    (JObj [("response", JObj [("status", JNum 500)])]) = Normal None ↔
  JObj [("response", JObj [("status", JNum 500)])] = JUndefined ∨
  (truthy (getProp (JObj [("response", JObj [("status", JNum 500)])]) "response")
     = true ∧
   getProp (getProp (JObj [("response", JObj [("status", JNum 500)])]) "response")
     "data" = JUndefined).
Proof.
  apply (formatError_undefined Builtins.stringify Builtins.toString).
  exact stringify_undefined.
Defined.

Lemma report_columns_witness :
  ∃ rep rem,
    Memory.run Memory.reliable (Parsed scenarioHeader scenario) []
      = (ReportWritten rep, rem) ∧
    ∃ first rest,
      scenario = first :: rest ∧
      Object_keys first = "feature_id" :: defaultLocale rep :: otherLocales rep.
Proof.
  eexists _, _. split; [vm_compute; reflexivity|].
  eapply (report_columns
            (Memory.get Memory.reliable) (Memory.post Memory.reliable)
            (Memory.put Memory.reliable) Builtins.stringify Builtins.toString
            scenarioHeader scenario writable (Memory.start [])).
  reflexivity.
Defined.

(** The report cannot be written: the requests were sent, [processCsv]
    rejects and the process ends with code 1. *)
Example full_disk_run :
  ∃ r',
    Memory.runOn Memory.reliable full (Parsed scenarioHeader scenario) []
      = (Rejected (JError "ENOSPC: no space left on device, write" []), r') ∧
    calls r'
      = [GET_pro_features "F1"; POST_pro_features "F1" "Hello" "en";
         PUT_pro_features "doc-F1" "vi" "Xin chao";
         GET_pro_features "F2"; POST_pro_features "F2" "World" "en"] ∧
    main Memory.W (Memory.get Memory.reliable) (Memory.post Memory.reliable)
      (Memory.put Memory.reliable) Builtins.stringify Builtins.toString
      (Some "features.csv") (fun _ => Parsed scenarioHeader scenario) full
      (Memory.start [])
      = (1%Z, r').
Proof. eexists. split; [vm_compute; reflexivity|]. by split. Qed.

Lemma requests_need_an_accepted_csv_witness :
  (∃ columns records,
     Parsed scenarioHeader scenario = Parsed columns records ∧ records ≠ [] ∧
     headersRejected (Object_keys (default [] (head records))) = false) ∧
  ((∃ rep, Rejected typeError = ReportWritten rep) ∨
   (∃ t, Rejected typeError = Rejected t)).
Proof.
  apply (proj2 (proj2 (proj2
           (requests_need_an_accepted_csv
              (Memory.get Memory.garbling) (Memory.post Memory.garbling)
              (Memory.put Memory.garbling) Builtins.stringify Builtins.toString
              (Parsed scenarioHeader scenario) writable (Memory.start [])
              (Rejected typeError)
              {| world := []; calls := [GET_pro_features "F1"] |}
              eq_refl)))).
  discriminate.
Defined.

Lemma main_exit_code_witness :
  ∃ r',
    main Memory.W (Memory.get Memory.reliable) (Memory.post Memory.reliable)
      (Memory.put Memory.reliable) Builtins.stringify Builtins.toString
      (Some "features.csv") (fun _ => Parsed scenarioHeader scenario) full
      (Memory.start [])
      = (1%Z, r') ∧
    (1%Z = 0%Z ∨ 1%Z = 1%Z) ∧
    (1%Z = 0%Z ↔
     ∃ p columns records,
       nonEmpty (Some "features.csv") = Some p ∧
       Parsed scenarioHeader scenario = Parsed columns records ∧
       (records = [] ∨
        (headersRejected (Object_keys (default [] (head records))) = false ∧
         ∃ st, Memory.reached Memory.reliable records (Memory.start [])
                 (length records) = Some st ∧
               writeReport full (report st) = Normal ()))).
Proof.
  eexists. split; [vm_compute; reflexivity|].
  eapply (main_exit_code
            (Memory.get Memory.reliable) (Memory.post Memory.reliable)
            (Memory.put Memory.reliable) Builtins.stringify Builtins.toString
            (Some "features.csv") (fun _ => Parsed scenarioHeader scenario) full
            (Memory.start [])).
  reflexivity.
Defined.

Lemma report_entries_refer_to_csv_witness :
  ∃ rep rem,
    Memory.run Memory.readOnly (Parsed scenarioHeader scenario) storedF1
      = (ReportWritten rep, rem) ∧
    Forall (fun e =>
              ReportEntrySuccess.locale e ∈ defaultLocale rep :: otherLocales rep ∧
              ∃ row, row ∈ scenario ∧
                     nonEmpty (cell row "feature_id")
                     = Some (ReportEntrySuccess.featureId e))
           (successes rep) ∧
    Forall (fun f =>
              ReportEntryFailure.locale f ∈ defaultLocale rep :: otherLocales rep ∧
              ReportEntryFailure.row f ∈ scenario)
           (failures rep).
Proof.
  eexists _, _. split; [vm_compute; reflexivity|].
  eapply (report_entries_refer_to_csv
            (Memory.get Memory.readOnly) (Memory.post Memory.readOnly)
            (Memory.put Memory.readOnly) Builtins.stringify Builtins.toString
            scenarioHeader scenario writable (Memory.start storedF1)).
  reflexivity.
Defined.

Lemma accepting_never_throws :
  NeverThrows Accepting.get Accepting.post Accepting.put.
Proof. split_and!; intros; unfold Accepting.get, Accepting.post, Accepting.put; eauto. Qed.

Lemma healthy_remote_run_witness :
  ∃ rep rem,
    Accepting.run (Parsed scenarioHeader (scenario ++ [rowAnonymous]))
      = (ReportWritten rep, rem) ∧
    Forall (fun f => isCheckFailure (defaultLocale rep) f = true) (failures rep) ∧
    length (failures rep)
      = length (List.filter
                  (fun row => negb (passesChecks (defaultLocale rep) row))
                  (scenario ++ [rowAnonymous])) ∧
    processedRows rep
      = length (List.filter (passesChecks (defaultLocale rep))
                  (scenario ++ [rowAnonymous])) ∧
    length (successes rep)
      = processedRows rep
        + filledCells (defaultLocale rep) (otherLocales rep)
            (scenario ++ [rowAnonymous]).
Proof.
  eexists _, _. split; [vm_compute; reflexivity|].
  eapply (healthy_remote_run Accepting.get Accepting.post Accepting.put
            Builtins.stringify Builtins.toString accepting_never_throws
            scenarioHeader (scenario ++ [rowAnonymous]) writable
            {| world := (); calls := [] |}).
  reflexivity.
Defined.

Lemma log_levels_match_failures_witness :
  ∃ rep rem,
    Memory.run Memory.readOnly
      (Parsed scenarioHeader (scenario ++ [rowAnonymous])) storedF1
      = (ReportWritten rep, rem) ∧
    Journal.countLevel Logger.warn
      (Journal.runLog Memory.W (Memory.get Memory.readOnly)
         (Memory.post Memory.readOnly) (Memory.put Memory.readOnly)
         Builtins.stringify Builtins.toString
         (Some "features.csv") None (fun p => "/data/" +:+ p)
         "/data/reports/report.json"
         (fun _ => Parsed scenarioHeader (scenario ++ [rowAnonymous]))
         writable (Memory.start storedF1))
      = 2 + length (List.filter (isCheckFailure (defaultLocale rep))
                      (failures rep)) ∧
    Journal.countLevel Logger.error
      (Journal.runLog Memory.W (Memory.get Memory.readOnly)
         (Memory.post Memory.readOnly) (Memory.put Memory.readOnly)
         Builtins.stringify Builtins.toString
         (Some "features.csv") None (fun p => "/data/" +:+ p)
         "/data/reports/report.json"
         (fun _ => Parsed scenarioHeader (scenario ++ [rowAnonymous]))
         writable (Memory.start storedF1))
      = length (List.filter (isRemoteFailure (defaultLocale rep)) (failures rep)).
Proof.
  eexists _, _. split; [vm_compute; reflexivity|].
  eapply (log_levels_match_failures
            (Memory.get Memory.readOnly) (Memory.post Memory.readOnly)
            (Memory.put Memory.readOnly) Builtins.stringify Builtins.toString
            (Some "features.csv") None (fun p => "/data/" +:+ p)
            "/data/reports/report.json"
            (fun _ => Parsed scenarioHeader (scenario ++ [rowAnonymous]))
            writable (Memory.start storedF1) "features.csv" scenarioHeader
            (scenario ++ [rowAnonymous])).
  - reflexivity.
  - reflexivity.
  - reflexivity.
Defined.

Lemma repeated_feature_id_is_updated_witness :
  ∃ sj,
    Memory.reached Memory.reliable [rowF1; rowF1] (Memory.start []) 1 = Some sj ∧
    ∃ e ds df,
      successes (report (Memory.row Memory.reliable "en" ["vi"] sj rowF1).2)
        = successes (report sj) ++ e :: ds ∧
      failures (report (Memory.row Memory.reliable "en" ["vi"] sj rowF1).2)
        = failures (report sj) ++ df ∧
      ReportEntrySuccess.action e = update_base ∧
      ReportEntrySuccess.featureId e = "F1" ∧
      Forall (fun e' => ReportEntrySuccess.action e' = upsert_locale) ds ∧
      Forall (fun f => ReportEntryFailure.action f = upsert_locale) df.
Proof.
  eexists. split; [vm_compute; reflexivity|].
  apply (repeated_feature_id_is_updated (Memory.get Memory.reliable)
           (Memory.post Memory.reliable) (Memory.put Memory.reliable)
           Builtins.stringify Builtins.toString memory_laws [rowF1; rowF1]
           (Memory.start []) 0 1 rowF1 rowF1 "F1" "Hello"
           (Memory.fresh "en" ["vi"] [])).
  - lia.
  - reflexivity.
  - reflexivity.
  - reflexivity.
  - reflexivity.
  - reflexivity.
  - reflexivity.
  - eexists _, _. vm_compute. reflexivity.
  - vm_compute. reflexivity.
Defined.

Lemma report_size_bounds_witness :
  ∃ rep rem,
    Memory.run Memory.readOnly (Parsed scenarioHeader scenario) storedF1
      = (ReportWritten rep, rem) ∧
    length scenario
      ≤ length (successes rep) + length (failures rep)
      ≤ length scenario * (1 + length (otherLocales rep)).
Proof.
  eexists _, _. split; [vm_compute; reflexivity|].
  eapply (report_size_bounds
            (Memory.get Memory.readOnly) (Memory.post Memory.readOnly)
            (Memory.put Memory.readOnly) Builtins.stringify Builtins.toString
            scenarioHeader scenario writable (Memory.start storedF1)).
  reflexivity.
Defined.

Lemma fatal_exit_is_logged_witness :
  1%Z = 1%Z ↔
  ∃ msg,
    last (Journal.mainLog Memory.W (Memory.get Memory.garbling)
            (Memory.post Memory.garbling) (Memory.put Memory.garbling)
            Builtins.stringify Builtins.toString
            (Some "features.csv") None (fun p => "/data/" +:+ p)
            "/data/reports/report.json"
            (fun _ => Parsed scenarioHeader scenario) writable
            (Memory.start []))
    = Some (Logger.error, msg).
Proof.
  apply (fatal_exit_is_logged (Memory.get Memory.garbling)
           (Memory.post Memory.garbling) (Memory.put Memory.garbling)
           Builtins.stringify Builtins.toString
           (Some "features.csv") None (fun p => "/data/" +:+ p)
           "/data/reports/report.json"
           (fun _ => Parsed scenarioHeader scenario) writable (Memory.start [])
           1%Z {| world := []; calls := [GET_pro_features "F1"] |}).
  reflexivity.
Defined.
